(** * nestjs-secrets: configuration loading, deep merge and secret resolution

    A shallow embedding of the configuration resolution engine of
    nestjs-secrets: the loader service ([SecretsLoaderService]), the four
    secret providers and the part of lodash ([merge], [isString],
    [isObject]) the loader relies on.

    Conventions of the embedding.
    - A JavaScript string is a [string]: a sequence of code units below 256.
      Every literal character of the source is ASCII.
    - A configuration tree is a [JsValue]; the property list of an object is
      kept in [for ... in] order and holds each key once ([well_formed]).
    - An asynchronous method is modelled by the value its promise settles
      with: [Ok] for a fulfilled promise, [Throw] for a rejected one, the
      payload of [Throw] being the message the loader would print
      ([error instanceof Error ? error.message : String(error)]).
    - The NestJS [Logger] is modelled by the list of entries written, in
      order. *)

From Stdlib Require Import String Ascii List ZArith Bool Arith Lia.
Import ListNotations.
Open Scope string_scope.
Open Scope list_scope.

Set Implicit Arguments.

(* ------------------------------------------------------------------ *)
(** ** JavaScript strings *)

Module JsString.

(** [s.startsWith(p)] *)
Definition startsWith (s p : string) : bool := String.prefix p s.

(** [s.endsWith(suffix)] *)
Fixpoint endsWith (s suffix : string) : bool :=
  (s =? suffix) ||
  match s with
  | EmptyString => false
  | String _ s' => endsWith s' suffix
  end.

(** [s.slice(0, -n)] *)
Definition dropLast (n : nat) (s : string) : string :=
  String.substring 0 (String.length s - n) s.

(** [s.indexOf(needle)], [None] standing for [-1] *)
Fixpoint indexOf (s needle : string) : option nat :=
  if String.prefix needle s then Some 0
  else match s with
       | EmptyString => None
       | String _ s' => option_map S (indexOf s' needle)
       end.

(** [s.substring(0, n)] *)
Definition substring0 (n : nat) (s : string) : string := String.substring 0 n s.

(** [prefix] removed from the front of [s], when it is there *)
Fixpoint stripPrefix (prefix s : string) : option string :=
  match prefix with
  | EmptyString => Some s
  | String p prefix' =>
      match s with
      | EmptyString => None
      | String c s' => if Ascii.eqb p c then stripPrefix prefix' s' else None
      end
  end.

Definition isEmpty (s : string) : bool :=
  match s with EmptyString => true | _ => false end.

(** Every character of [s] satisfies [p] *)
Fixpoint all (p : ascii -> bool) (s : string) : bool :=
  match s with
  | EmptyString => true
  | String c s' => p c && all p s'
  end.

End JsString.

(* ------------------------------------------------------------------ *)
(** ** Configuration trees *)

(** The values [JSON.parse] and [yaml.load] build, and the one kind of value
    lodash's [merge] can make of them that is no longer such a tree:
    [JExotic object source] stands for the JavaScript array [merge] produces
    when it merges [source] into a destination [object] of the other
    container kind (a plain object written into an array, which keeps the
    array and hangs named properties on it, or an array written over an
    array-like plain object, which copies the object into an array with
    holes).  Numbers are the integers; the loader never computes with them. *)
#[local] Unset Elimination Schemes.
Inductive JsValue : Type :=
| JNull
| JBool (b : bool)
| JNum (n : Z)
| JStr (s : string)
| JArr (elements : list JsValue)
| JObj (properties : list (string * JsValue))
| JExotic (object source : JsValue).
#[local] Set Elimination Schemes.

(** [Record<string, any>] *)
Definition Props : Type := list (string * JsValue).

Section JsValueInduction.
Variable P : JsValue -> Prop.
Hypothesis Hnull : P JNull.
Hypothesis Hbool : forall b, P (JBool b).
Hypothesis Hnum : forall n, P (JNum n).
Hypothesis Hstr : forall s, P (JStr s).
Hypothesis Harr : forall xs, Forall P xs -> P (JArr xs).
Hypothesis Hobj : forall ps, Forall (fun kv => P (snd kv)) ps -> P (JObj ps).
Hypothesis Hexotic : forall o s, P o -> P s -> P (JExotic o s).

Fixpoint JsValue_nested_ind (v : JsValue) : P v :=
  match v with
  | JNull => Hnull
  | JBool b => Hbool b
  | JNum n => Hnum n
  | JStr s => Hstr s
  | JArr xs =>
      Harr ((fix all (l : list JsValue) : Forall P l :=
               match l with
               | [] => Forall_nil P
               | x :: l' => Forall_cons x (JsValue_nested_ind x) (all l')
               end) xs)
  | JObj ps =>
      Hobj ((fix all (l : Props) : Forall (fun kv => P (snd kv)) l :=
               match l with
               | [] => Forall_nil _
               | (k, x) :: l' =>
                   Forall_cons (k, x) (JsValue_nested_ind x) (all l')
               end) ps)
  | JExotic o s => Hexotic (JsValue_nested_ind o) (JsValue_nested_ind s)
  end.
End JsValueInduction.

Module Obj.

(** [Object.keys(o)], in iteration order *)
Definition keys (o : Props) : list string := map fst o.

(** [o[key]] for an own property, [None] standing for [undefined] *)
Fixpoint get (key : string) (o : Props) : option JsValue :=
  match o with
  | [] => None
  | (k, v) :: o' => if k =? key then Some v else get key o'
  end.

(** [o[key] = v]: an existing property keeps its place, a new one goes last *)
Fixpoint set (key : string) (v : JsValue) (o : Props) : Props :=
  match o with
  | [] => [(key, v)]
  | (k, x) :: o' => if k =? key then (k, v) :: o' else (k, x) :: set key v o'
  end.

Fixpoint mem (key : string) (ks : list string) : bool :=
  match ks with
  | [] => false
  | k :: ks' => (k =? key) || mem key ks'
  end.

Fixpoint distinct (ks : list string) : bool :=
  match ks with
  | [] => true
  | k :: ks' => negb (mem k ks') && distinct ks'
  end.

End Obj.

(** A tree is well formed when no object at any depth lists a key twice. *)
Fixpoint well_formed (v : JsValue) : bool :=
  match v with
  | JArr xs =>
      (fix all (l : list JsValue) : bool :=
         match l with
         | [] => true
         | x :: l' => well_formed x && all l'
         end) xs
  | JObj ps =>
      Obj.distinct (Obj.keys ps) &&
      (fix all (l : Props) : bool :=
         match l with
         | [] => true
         | (_, x) :: l' => well_formed x && all l'
         end) ps
  | JExotic o s => well_formed o && well_formed s
  | _ => true
  end.

Definition well_formed_props (o : Props) : bool := well_formed (JObj o).

(** The value found by following a path of keys through nested objects
    (the dotted key [a.b.c] is the path [["a"; "b"; "c"]]). *)
Fixpoint lookup_path (path : list string) (v : JsValue) : option JsValue :=
  match path with
  | [] => Some v
  | key :: path' =>
      match v with
      | JObj ps =>
          match Obj.get key ps with
          | Some v' => lookup_path path' v'
          | None => None
          end
      | _ => None
      end
  end.


(* ------------------------------------------------------------------ *)
(** ** lodash

    [merge] as lodash 4.17 behaves: own enumerable string-keyed properties
    of the sources are merged into the destination from left to right,
    arrays and plain objects recursively, any other value by assignment.
    The guard against prototype pollution is part of it: [baseMergeDeep]
    reads both sides through [safeGet], which answers [undefined] at the key
    [__proto__], so a source property of that name whose value is an array
    or an object leaves the destination as it is.  The parsers give an
    object the key [__proto__] as an own property, like any other key. *)

Module Lodash.

(** [_.isString] *)
Definition isString (v : JsValue) : bool :=
  match v with JStr _ => true | _ => false end.

(** [_.isObject]: arrays and objects, not [null] *)
Definition isObject (v : JsValue) : bool :=
  match v with JArr _ | JObj _ | JExotic _ _ => true | _ => false end.

(** [Array.isArray] *)
Definition isArray (v : JsValue) : bool :=
  match v with JArr _ | JExotic _ _ => true | _ => false end.

Definition MAX_SAFE_INTEGER : Z := 9007199254740991.

(** [_.isArrayLikeObject] on a plain object: a [length] property holding a
    valid length *)
Definition isArrayLike (o : Props) : bool :=
  match Obj.get "length" o with
  | Some (JNum n) => (0 <=? n)%Z && (n <=? MAX_SAFE_INTEGER)%Z
  | _ => false
  end.

(** A source property [baseMerge] passes over: [isObject(srcValue)] sends it
    to [baseMergeDeep], where [safeGet(source, key)] is [undefined] for the
    key [__proto__] and [assignMergeValue(object, key, undefined)] assigns
    nothing, the name being [in] every object. *)
Definition skipped (key : string) (srcValue : JsValue) : bool :=
  (key =? "__proto__") && isObject srcValue.

(** The value [baseMerge] leaves at a key whose source value is [srcValue]
    and whose destination value is [objValue] ([None] when the destination
    has no such key).  A source value that is not an object is assigned
    ([assignMergeValue]); an array or a plain object is merged into the
    destination value of the same kind, or into a fresh [[]] or [{}]
    ([baseMergeDeep]).  Arrays are merged index by index, like any other
    object. *)
Fixpoint mergeValue (srcValue : JsValue) (objValue : option JsValue)
  {struct srcValue} : JsValue :=
  match srcValue with
  | JArr source =>
      let mergeInto :=
        fix mergeInto (source object : list JsValue) {struct source}
          : list JsValue :=
          match source with
          | [] => object
          | srcElem :: source' =>
              match object with
              | [] => mergeValue srcElem None :: mergeInto source' []
              | objElem :: object' =>
                  mergeValue srcElem (Some objElem) :: mergeInto source' object'
              end
          end in
      match objValue with
      | Some (JArr object) => JArr (mergeInto source object)
      | Some (JExotic _ _ as object) => JExotic object srcValue
      | Some (JObj object) =>
          if isArrayLike object then JExotic (JObj object) srcValue
          else JArr (mergeInto source [])
      | _ => JArr (mergeInto source [])
      end
  | JObj source =>
      let mergeInto :=
        fix mergeInto (source object : Props) {struct source} : Props :=
          match source with
          | [] => object
          | (key, srcProp) :: source' =>
              mergeInto source'
                (if skipped key srcProp then object
                 else Obj.set key (mergeValue srcProp (Obj.get key object))
                        object)
          end in
      match objValue with
      | Some (JObj object) => JObj (mergeInto source object)
      | Some (JArr _ as object) | Some (JExotic _ _ as object) =>
          JExotic object srcValue
      | _ => JObj (mergeInto source [])
      end
  | JExotic _ _ =>
      match objValue with
      | Some (JArr _ as object) | Some (JExotic _ _ as object) =>
          JExotic object srcValue
      | Some (JObj object) =>
          if isArrayLike object then JExotic (JObj object) srcValue
          else srcValue
      | _ => srcValue
      end
  | _ => srcValue
  end.

(** [baseMerge(object, source)] for two arrays *)
Fixpoint baseMergeArray (source object : list JsValue) : list JsValue :=
  match source with
  | [] => object
  | srcElem :: source' =>
      match object with
      | [] => mergeValue srcElem None :: baseMergeArray source' []
      | objElem :: object' =>
          mergeValue srcElem (Some objElem) :: baseMergeArray source' object'
      end
  end.

(** [baseMerge(object, source)] for two plain objects: the keys of
    [source], in order, are merged into [object], those [safeGet] hides
    apart *)
Fixpoint baseMerge (source object : Props) : Props :=
  match source with
  | [] => object
  | (key, srcValue) :: source' =>
      baseMerge source'
        (if skipped key srcValue then object
         else Obj.set key (mergeValue srcValue (Obj.get key object)) object)
  end.

(** [_.merge(object, ...sources)]: the sources are applied from left to
    right *)
Definition merge (object : Props) (sources : list Props) : Props :=
  fold_left (fun acc source => baseMerge source acc) sources object.

End Lodash.

(** A tree [merge] copies whole: no object in it, at any depth, has an array
    or an object under the key [__proto__]. *)
Fixpoint proto_safe (v : JsValue) : bool :=
  match v with
  | JArr xs =>
      (fix all (l : list JsValue) : bool :=
         match l with
         | [] => true
         | x :: l' => proto_safe x && all l'
         end) xs
  | JObj ps =>
      (fix all (l : Props) : bool :=
         match l with
         | [] => true
         | (key, x) :: l' =>
             negb (Lodash.skipped key x) && proto_safe x && all l'
         end) ps
  | JExotic o s => proto_safe o && proto_safe s
  | _ => true
  end.

(* ------------------------------------------------------------------ *)
(** ** Logging and rejected promises *)

Inductive Outcome (A : Type) : Type :=
| Ok (a : A)
| Throw (message : string).
Arguments Throw {A} message.

Inductive LogLevel : Type := LDebug | LWarn | LError.

Definition LogEntry : Type := (LogLevel * string)%type.

(** A computation that writes log entries and either returns or throws. *)
Definition M (A : Type) : Type := (Outcome A * list LogEntry)%type.

Definition ret {A} (a : A) : M A := (Ok a, []).

Definition bind {A B} (m : M A) (f : A -> M B) : M B :=
  match m with
  | (Ok a, written) => let '(r, written') := f a in (r, written ++ written')
  | (Throw e, written) => (Throw e, written)
  end.

Definition throw {A} (message : string) : M A := (Throw message, []).

Definition log (level : LogLevel) (message : string) : M unit :=
  (Ok tt, [(level, message)]).

(** [await] of a call into a backend client or into the runtime *)
Definition await {A} (o : Outcome A) : M A := (o, []).

(** [try { body } catch (error) { handler(message of error) }] *)
Definition try_catch {A} (body : M A) (handler : string -> M A) : M A :=
  match body with
  | (Ok a, written) => (Ok a, written)
  | (Throw e, written) => let '(r, written') := handler e in (r, written ++ written')
  end.

Declare Scope m_scope.
Delimit Scope m_scope with M.
Notation "x <- m ;; k" := (bind m (fun x => k))
  (at level 61, m at next level, right associativity) : m_scope.
Notation "m ;;; k" := (bind m (fun _ => k))
  (at level 61, right associativity) : m_scope.
Open Scope m_scope.

Definition value_of {A} (m : M A) : Outcome A := fst m.
Definition written {A} (m : M A) : list LogEntry := snd m.

(* ------------------------------------------------------------------ *)
(** ** Regular expressions

    The four reference patterns are anchored at both ends and quantify
    character sets only, so the fragment below covers them: literals,
    [set+], [set{n}], sequence, alternation, a capturing group and an
    optional non-capturing group.  Matching backtracks in the order of a
    JavaScript engine (a greedy quantifier gives characters back one at a
    time; the left alternative is tried first). *)

Module Regex.

Inductive ClassItem : Type :=
| Chr (c : ascii)
| Range (lo hi : ascii)
| WordChar      (* \w *)
| DigitChar     (* \d *)
| SpaceChar.    (* \s *)

Inductive CharSet : Type :=
| OneOf (items : list ClassItem)     (* [...] *)
| NoneOf (items : list ClassItem)    (* [^...] *)
| AnyChar.                           (* . *)

Inductive Regex : Type :=
| RLit (s : string)
| RPlus (cs : CharSet)
| RRepeat (n : nat) (cs : CharSet)
| RSeq (r1 r2 : Regex)
| RAlt (r1 r2 : Regex)
| RGroup (r : Regex)
| ROpt (r : Regex).

Definition between (lo hi c : ascii) : bool :=
  (N_of_ascii lo <=? N_of_ascii c)%N && (N_of_ascii c <=? N_of_ascii hi)%N.

Definition is_digit (c : ascii) : bool := between "0" "9" c.

Definition is_word (c : ascii) : bool :=
  between "a" "z" c || between "A" "Z" c || is_digit c || Ascii.eqb c "_".

(** White space and line terminators among the code units below 256 *)
Definition is_space (c : ascii) : bool :=
  let n := N_of_ascii c in
  ((9 <=? n)%N && (n <=? 13)%N) || (n =? 32)%N || (n =? 160)%N.

Definition is_line_terminator (c : ascii) : bool :=
  let n := N_of_ascii c in (n =? 10)%N || (n =? 13)%N.

Definition item_has (i : ClassItem) (c : ascii) : bool :=
  match i with
  | Chr x => Ascii.eqb x c
  | Range lo hi => between lo hi c
  | WordChar => is_word c
  | DigitChar => is_digit c
  | SpaceChar => is_space c
  end.

Definition set_has (cs : CharSet) (c : ascii) : bool :=
  match cs with
  | OneOf items => existsb (fun i => item_has i c) items
  | NoneOf items => negb (existsb (fun i => item_has i c) items)
  | AnyChar => negb (is_line_terminator c)
  end.

(** The capture groups of a match, by group number from 1; [None] is a
    group that took no part in the match ([undefined]). *)
Definition Captures : Type := list (option string).

Fixpoint groups (r : Regex) : nat :=
  match r with
  | RSeq r1 r2 | RAlt r1 r2 => groups r1 + groups r2
  | RGroup r' => S (groups r')
  | ROpt r' => groups r'
  | _ => 0
  end.

Fixpoint set_capture (n : nat) (s : string) (caps : Captures) : Captures :=
  match caps, n with
  | [], _ => []
  | _ :: caps', O => Some s :: caps'
  | c :: caps', S n' => c :: set_capture n' s caps'
  end.

(** The part of [s] consumed when [rest] is what remains of it *)
Definition consumed (s rest : string) : string :=
  String.substring 0 (String.length s - String.length rest) s.

Section Backtracking.
Variable A : Type.

(** [cs+]: as many characters as possible, then fewer *)
Fixpoint plus_greedy (cs : CharSet) (s : string) (k : string -> option A)
  : option A :=
  match s with
  | EmptyString => None
  | String c s' =>
      if set_has cs c then
        match plus_greedy cs s' k with
        | Some r => Some r
        | None => k s'
        end
      else None
  end.

(** [cs{n}] *)
Fixpoint repeat_exactly (n : nat) (cs : CharSet) (s : string)
  (k : string -> option A) : option A :=
  match n with
  | O => k s
  | S n' =>
      match s with
      | EmptyString => None
      | String c s' =>
          if set_has cs c then repeat_exactly n' cs s' k else None
      end
  end.
End Backtracking.

Fixpoint run (r : Regex) (s : string) (caps : Captures)
  (k : string -> Captures -> option Captures) {struct r} : option Captures :=
  match r with
  | RLit l =>
      match JsString.stripPrefix l s with
      | Some rest => k rest caps
      | None => None
      end
  | RPlus cs => plus_greedy cs s (fun rest => k rest caps)
  | RRepeat n cs => repeat_exactly n cs s (fun rest => k rest caps)
  | RSeq r1 r2 => run r1 s caps (fun rest caps' => run r2 rest caps' k)
  | RAlt r1 r2 =>
      match run r1 s caps
              (fun rest caps' => k rest (caps' ++ repeat None (groups r2))) with
      | Some m => Some m
      | None =>
          run r2 s (caps ++ repeat None (groups r1)) k
      end
  | RGroup r' =>
      let slot := List.length caps in
      run r' s (caps ++ [None])
        (fun rest caps' => k rest (set_capture slot (consumed s rest) caps'))
  | ROpt r' =>
      match run r' s caps k with
      | Some m => Some m
      | None => k s (caps ++ repeat None (groups r'))
      end
  end.

(** [s.match(/^r$/)]: the capture groups when the whole of [s] matches *)
Definition exec (r : Regex) (s : string) : option Captures :=
  run r s [] (fun rest caps => if JsString.isEmpty rest then Some caps else None).

(** [/^r$/.test(s)] *)
Definition test (r : Regex) (s : string) : bool :=
  match exec r s with Some _ => true | None => false end.

(** [match[n]] for [n >= 1] *)
Definition group (n : nat) (m : Captures) : option string :=
  match nth_error m (n - 1) with
  | Some g => g
  | None => None
  end.

Declare Scope regex_scope.
Delimit Scope regex_scope with regex.
Notation "r1 ++> r2" := (RSeq r1 r2)
  (at level 60, right associativity) : regex_scope.

End Regex.

(* ------------------------------------------------------------------ *)
(** ** Secret providers *)

(** What [resolveSecret] resolves to: [string | string[]] *)
Inductive SecretValue : Type :=
| SString (s : string)
| SArray (values : list string).

(** The abstract class [SecretsProvider].  [isSecretReference] is a
    syntactic check, taken to return (the loader calls it outside its
    [try]); [resolveSecret] asks the backend, which answers a reference the
    same way throughout one load. *)
Record SecretsProvider : Type := {
  isSecretReference : string -> bool;
  resolveSecret : string -> M SecretValue
}.

(** A falsy string: [undefined] or [''] *)
Definition falsy (s : option string) : bool :=
  match s with
  | None => true
  | Some v => JsString.isEmpty v
  end.

(** A string inside a template literal *)
Definition interpolate (s : option string) : string :=
  match s with
  | Some v => v
  | None => "undefined"
  end.

Module AwsParameterStore.
Import Regex.
Open Scope regex_scope.

(** [@aws-sdk/client-ssm] *)
Record SsmParameter : Type := { Name : option string; Value : option string }.

Record GetParametersByPathInput : Type :=
  { Path : string; PathWithDecryption : bool; Recursive : bool }.

Record GetParameterInput : Type :=
  { ParameterName : string; WithDecryption : bool }.

Inductive Command : Type :=
| GetParametersByPathCommand (input : GetParametersByPathInput)
| GetParameterCommand (input : GetParameterInput).

(** The response to either command: [response.Parameters] is set by the
    first, [response.Parameter] by the second. *)
Record CommandOutput : Type :=
  { Parameters_ : option (list SsmParameter);
    Parameter_ : option SsmParameter }.

Record SSMClient : Type := { send : Command -> Outcome CommandOutput }.

Definition pathChars : CharSet :=
  OneOf [Range "a" "z"; Range "A" "Z"; Range "0" "9";
         Chr "_"; Chr "."; Chr "/"; Chr "-"].

(** [/^(?:\/[a-zA-Z0-9_./-]+|arn:[a-z-]+:ssm:[a-z0-9-]+:\d{12}:parameter\/[a-zA-Z0-9_./-]+)$/] *)
Definition parameterPathPattern : Regex :=
  RAlt
    (RLit "/" ++> RPlus pathChars)
    (RLit "arn:" ++> RPlus (OneOf [Range "a" "z"; Chr "-"]) ++>
     RLit ":ssm:" ++> RPlus (OneOf [Range "a" "z"; Range "0" "9"; Chr "-"]) ++>
     RLit ":" ++> RRepeat 12 (OneOf [DigitChar]) ++>
     RLit ":parameter/" ++> RPlus pathChars).

Definition isSecretReference (value : string) : bool :=
  Regex.test parameterPathPattern value.

(** The callback of [response.Parameters.map] *)
Definition parameterValue (param : SsmParameter) : M string :=
  if falsy (Value param) then
    log LWarn ("Parameter " ++ interpolate (Name param) ++ " has no value") ;;;
    ret ""
  else ret (interpolate (Value param)).

Fixpoint mapM {A B} (f : A -> M B) (l : list A) : M (list B) :=
  match l with
  | [] => ret []
  | a :: l' => b <- f a ;; bs <- mapM f l' ;; ret (b :: bs)
  end.

(** [.filter(Boolean)] on strings *)
Definition filterBoolean (l : list string) : list string :=
  filter (fun s => negb (JsString.isEmpty s)) l.

Definition retrieveParametersByPath (client : SSMClient) (pathRef : string)
  : M (list string) :=
  let basePath := JsString.dropLast 2 pathRef in
  let command := GetParametersByPathCommand
    {| Path := basePath; PathWithDecryption := true; Recursive := true |} in
  response <- await (send client command) ;;
  match Parameters_ response with
  | None | Some [] => throw ("No parameters found at path: " ++ basePath)
  | Some params =>
      values <- mapM parameterValue params ;;
      ret (filterBoolean values)
  end.

Definition retrieveSingleParameter (client : SSMClient) (paramName : string)
  : M string :=
  let command := GetParameterCommand
    {| ParameterName := paramName; WithDecryption := true |} in
  response <- await (send client command) ;;
  match Parameter_ response with
  | None => throw ("Parameter not found: " ++ paramName)
  | Some parameter =>
      if falsy (Value parameter)
      then throw ("Parameter value is empty for: " ++ paramName)
      else ret (interpolate (Value parameter))
  end.

Definition resolveSecret (client : SSMClient) (secretRef : string)
  : M SecretValue :=
  if JsString.endsWith secretRef "/*" then
    values <- retrieveParametersByPath client secretRef ;; ret (SArray values)
  else
    value <- retrieveSingleParameter client secretRef ;; ret (SString value).

Definition provider (client : SSMClient) : SecretsProvider :=
  Build_SecretsProvider isSecretReference (resolveSecret client).

End AwsParameterStore.

Module AwsSecretsManager.
Import Regex.
Open Scope regex_scope.

(** [@aws-sdk/client-secrets-manager].  A binary secret is represented by
    the text [Buffer.from(binary, 'base64').toString('utf8')] yields, the
    one thing the provider does with it. *)
Record GetSecretValueOutput : Type :=
  { SecretString : option string; SecretBinary : option string }.

Record SecretsManager : Type :=
  { getSecretValue : string -> Outcome GetSecretValueOutput }.

(** [/^arn:aws:secretsmanager:[a-z0-9-]+:[0-9]+:secret:.+$/] *)
Definition arnPattern : Regex :=
  RLit "arn:aws:secretsmanager:" ++>
  RPlus (OneOf [Range "a" "z"; Range "0" "9"; Chr "-"]) ++>
  RLit ":" ++> RPlus (OneOf [Range "0" "9"]) ++>
  RLit ":secret:" ++> RPlus AnyChar.

Definition isSecretReference (value : string) : bool :=
  Regex.test arnPattern value.

Definition decodeBinarySecret (binaryData : string) : string := binaryData.

Definition resolveSecret (client : SecretsManager) (secretRef : string)
  : M SecretValue :=
  response <- await (getSecretValue client secretRef) ;;
  if negb (falsy (SecretString response)) then
    ret (SString (interpolate (SecretString response)))
  else
    match SecretBinary response with
    | Some binaryData => ret (SString (decodeBinarySecret binaryData))
    | None => throw "Secret value is empty"
    end.

Definition provider (client : SecretsManager) : SecretsProvider :=
  Build_SecretsProvider isSecretReference (resolveSecret client).

End AwsSecretsManager.

Module AzureKeyVault.
Import Regex.
Open Scope regex_scope.

(** [@azure/keyvault-secrets]: [getSecret(secretName, options?)], where
    [options.version] selects a version of the secret; the response may be
    missing and so may its [value]. *)
Record KeyVaultSecret : Type := { value : option string }.

Record GetSecretOptions : Type := { version : option string }.

Record SecretClient : Type :=
  { getSecret : string -> option GetSecretOptions ->
                Outcome (option KeyVaultSecret) }.

Definition vaultChars : CharSet := OneOf [WordChar; Chr "-"].

Definition segmentChars : CharSet := NoneOf [Chr "/"; SpaceChar].

(** [/^https:\/\/[\w-]+\.vault\.azure\.net\/secrets\/([^/\s]+)(?:\/([^/\s]+))?$/] *)
Definition secretUrlPattern : Regex :=
  RLit "https://" ++> RPlus vaultChars ++>
  RLit ".vault.azure.net/secrets/" ++> RGroup (RPlus segmentChars) ++>
  ROpt (RLit "/" ++> RGroup (RPlus segmentChars)).

Definition isSecretReference (value : string) : bool :=
  Regex.test secretUrlPattern value.

(** [match[0]] is the whole reference; group 1, the secret name, takes
    part in every match of the pattern. *)
Definition parseSecretReference (secretRef : string) : M string :=
  match Regex.exec secretUrlPattern secretRef with
  | None =>
      throw ("Invalid Azure Key Vault secret reference: " ++ secretRef ++
             ". Expected format: https://<vault-name>.vault.azure.net/secrets/<secret-name>[/<version>]")
  | Some m =>
      let vaultName := secretRef in
      let secretName := interpolate (Regex.group 1 m) in
      log LDebug ("Parsed secret reference from vault: " ++ vaultName ++
                  ", secret: " ++ secretName) ;;;
      ret secretName
  end.

Definition resolveSecret (client : SecretClient) (secretRef : string)
  : M SecretValue :=
  secretName <- parseSecretReference secretRef ;;
  response <- await (getSecret client secretName None) ;;
  match response with
  | Some secret =>
      if falsy (value secret) then
        throw ("Secret '" ++ secretName ++
               "' was retrieved but has an empty value")
      else ret (SString (interpolate (value secret)))
  | None =>
      throw ("Secret '" ++ secretName ++
             "' was retrieved but has an empty value")
  end.

Definition provider (client : SecretClient) : SecretsProvider :=
  Build_SecretsProvider isSecretReference (resolveSecret client).

End AzureKeyVault.

Module GoogleSecretManager.
Import Regex.
Open Scope regex_scope.

(** [@google-cloud/secret-manager]: the payload data is text or a
    [Buffer]; a buffer is represented by its UTF-8 decoding. *)
Inductive PayloadData : Type :=
| TextData (s : string)
| BufferData (utf8 : string).

Record SecretPayload : Type := { data : option PayloadData }.

Record AccessSecretVersionResponse : Type :=
  { payload : option SecretPayload }.

Record SecretManagerServiceClient : Type :=
  { accessSecretVersion :
      string -> Outcome (option AccessSecretVersionResponse) }.

Definition notSlash : CharSet := NoneOf [Chr "/"].

(** [/^projects\/[^/]+\/secrets\/[^/]+\/versions\/[^/]+$/] *)
Definition secretPathPattern : Regex :=
  RLit "projects/" ++> RPlus notSlash ++>
  RLit "/secrets/" ++> RPlus notSlash ++>
  RLit "/versions/" ++> RPlus notSlash.

Definition isSecretReference (value : string) : bool :=
  Regex.test secretPathPattern value.

Definition resolveSecret (client : SecretManagerServiceClient)
  (secretRef : string) : M SecretValue :=
  response <- await (accessSecretVersion client secretRef) ;;
  match response with
  | None => throw "Secret payload is missing"
  | Some r =>
      match payload r with
      | None => throw "Secret payload is missing"
      | Some p =>
          match data p with
          | None | Some (TextData EmptyString) =>
              throw "Secret payload data is missing"
          | Some (TextData s) => ret (SString s)
          | Some (BufferData utf8) => ret (SString utf8)
          end
      end
  end.

Definition provider (client : SecretManagerServiceClient) : SecretsProvider :=
  Build_SecretsProvider isSecretReference (resolveSecret client).

End GoogleSecretManager.

(* ------------------------------------------------------------------ *)
(** ** The loader service *)

Module SecretsLoaderService.

Inductive FileType : Type := yaml | json.

(** [options.client] has type [any]: an object with a constructor name,
    viewed through the interface of each SDK client.  A method the object
    does not have is a method that throws. *)
Record Client : Type := {
  constructor_name : string;
  asSSMClient : AwsParameterStore.SSMClient;
  asSecretsManager : AwsSecretsManager.SecretsManager;
  asSecretClient : AzureKeyVault.SecretClient;
  asSecretManagerServiceClient : GoogleSecretManager.SecretManagerServiceClient
}.

(** [provider?: SecretsProviderType | SecretsProvider] *)
Inductive ProviderOption : Type :=
| ProviderType (key : string)              (* typeof provider === 'string' *)
| ProviderInstance (p : SecretsProvider).   (* typeof provider === 'object' *)

Record SecretsLoaderOptions : Type := {
  provider : option ProviderOption;
  client : option Client;
  root : option string;
  files : list string;
  fileType : option FileType
}.

(** What the loader asks of Node: the module's directory, the working
    directory, [node:path], [node:fs], and the two parsers, whose results
    are taken at their declared type [Record<string, any>].  The working
    directory is taken to be there: [process.cwd()], which throws when it
    has been removed, returns. *)
Record Runtime : Type := {
  dirname : string;                               (* __dirname *)
  cwd : string;                                   (* process.cwd() *)
  basename : string -> string;
  isAbsolute : string -> bool;
  join : string -> string -> string;
  resolve : string -> string -> string;
  existsSync : string -> bool;
  readFileSync : string -> Outcome string;
  yaml_load : string -> Outcome Props;
  JSON_parse : string -> Outcome Props
}.

(** [@nestjs/config]'s [ConfigService], as the configuration it wraps *)
Record ConfigService : Type := { internalConfig : Props }.

Definition createSecretProvider (key : string) (client : Client)
  : M (option SecretsProvider) :=
  if (key =? "AwsSecretsManagerProvider") || (key =? "SecretsManager") then
    ret (Some (AwsSecretsManager.provider (asSecretsManager client)))
  else if (key =? "AwsParameterStoreProvider") || (key =? "SSMClient") then
    ret (Some (AwsParameterStore.provider (asSSMClient client)))
  else if (key =? "AzureKeyVaultProvider") || (key =? "SecretClient") then
    ret (Some (AzureKeyVault.provider (asSecretClient client)))
  else if (key =? "GoogleSecretManagerProvider")
          || (key =? "SecretManagerServiceClient") then
    ret (Some (GoogleSecretManager.provider
                 (asSecretManagerServiceClient client)))
  else
    log LWarn ("Unsupported secret provider: " ++ constructor_name client) ;;;
    ret None.

Definition specialDirs : list string := ["dist"; "src"; "lib"].

Definition findAppRootDirectory (rt : Runtime) : string :=
  let currentDir := dirname rt in
  let dirName := basename rt currentDir in
  let currentDir :=
    if existsb (String.eqb dirName) specialDirs then resolve rt currentDir ".."
    else currentDir in
  match JsString.indexOf currentDir "node_modules" with
  | Some nodeModulesIndex => JsString.substring0 nodeModulesIndex currentDir
  | None => currentDir
  end.

Definition isRelativePathFromCwd (path : string) : bool :=
  JsString.startsWith path "./" || JsString.startsWith path "../".

Definition resolveDefaultConfigDirectory (rt : Runtime)
  (appRoot configDir : string) : M string :=
  let configDir := join rt appRoot configDir in
  log LDebug ("No base directory specified, using: " ++ configDir) ;;;
  ret configDir.

Definition resolveBaseDirectory (rt : Runtime) (directoryPath : option string)
  : M string :=
  let appRoot := findAppRootDirectory rt in
  match directoryPath with
  | None | Some EmptyString => resolveDefaultConfigDirectory rt appRoot "config"
  | Some directoryPath =>
      if isAbsolute rt directoryPath then ret directoryPath
      else if isRelativePathFromCwd directoryPath
           then ret (resolve rt (cwd rt) directoryPath)
           else ret (join rt appRoot directoryPath)
  end.

Definition loadProvider (options : SecretsLoaderOptions)
  : M (option SecretsProvider) :=
  match provider options, client options with
  | Some (ProviderInstance p), _ => ret (Some p)
  | Some (ProviderType key), Some c => createSecretProvider key c
  | _, Some c => createSecretProvider (constructor_name c) c
  | _, None => ret None
  end.

(** The value a resolved secret puts in the tree *)
Definition secretToJs (r : SecretValue) : JsValue :=
  match r with
  | SString s => JStr s
  | SArray values => JArr (map JStr values)
  end.

(** [path ? `${path}.${key}` : key] *)
Definition fullPathOf (path key : string) : string :=
  if JsString.isEmpty path then key else path ++ "." ++ key.

(** The body of the loop of [resolveSecrets], for the property whose value
    is [v] and whose dotted path is [fullPath].  The loop visits every own
    property once and assigns to the property it is visiting only, so it is
    a map over the property list. *)
Fixpoint resolveProperty (secretProvider : SecretsProvider) (v : JsValue)
  (fullPath : string) {struct v} : M JsValue :=
  match v with
  | JStr s =>
      if isSecretReference secretProvider s then
        try_catch
          (resolved <- resolveSecret secretProvider s ;;
           log LDebug ("Loaded secret from provider [" ++ fullPath ++ "]") ;;;
           ret (secretToJs resolved))
          (fun message =>
             log LError ("Failed to load secret [" ++ fullPath ++ "]: "
                         ++ message) ;;;
             ret (JStr s))
      else ret v
  | JObj config =>
      config' <-
        (fix resolveAll (config : Props) : M Props :=
           match config with
           | [] => ret []
           | (key, x) :: rest =>
               x' <- resolveProperty secretProvider x (fullPathOf fullPath key) ;;
               rest' <- resolveAll rest ;;
               ret ((key, x') :: rest')
           end) config ;;
      ret (JObj config')
  | _ => ret v
  end.

Fixpoint resolveSecrets (secretProvider : SecretsProvider) (config : Props)
  (path : string) : M Props :=
  match config with
  | [] => ret []
  | (key, v) :: rest =>
      v' <- resolveProperty secretProvider v (fullPathOf path key) ;;
      rest' <- resolveSecrets secretProvider rest path ;;
      ret ((key, v') :: rest')
  end.

(** The format a file is parsed in: the condition of the [if] that chooses
    between [yaml.load] and [JSON.parse], [fileType] being the destructured
    option with its default ([fileType = 'yaml']). *)
Definition parsedAs (fileType : FileType) (filename : string) : FileType :=
  if match fileType with yaml => true | json => false end
     || JsString.endsWith filename ".yml"
     || JsString.endsWith filename ".yaml"
  then yaml else json.

Definition parseContent (rt : Runtime) (format : FileType)
  (fileContent : string) : Outcome Props :=
  match format with
  | yaml => yaml_load rt fileContent
  | json => JSON_parse rt fileContent
  end.

(** [const {files, fileType = 'yaml'} = options] *)
Definition fileTypeOf (options : SecretsLoaderOptions) : FileType :=
  match fileType options with
  | Some t => t
  | None => yaml
  end.

(** [merge({}, mergedConfig, fileConfig)] *)
Definition mergeConfig (mergedConfig fileConfig : Props) : Props :=
  Lodash.merge [] [mergedConfig; fileConfig].

(** One turn of the loop over [files] *)
Definition loadFile (rt : Runtime) (fileType : FileType)
  (baseDirectory : string) (mergedConfig : Props) (filename : string)
  : M Props :=
  let filePath := join rt baseDirectory filename in
  if existsSync rt filePath then
    try_catch
      (log LDebug ("Loading config from " ++ filePath) ;;;
       fileContent <- await (readFileSync rt filePath) ;;
       fileConfig <- await (parseContent rt (parsedAs fileType filename)
                              fileContent) ;;
       ret (mergeConfig mergedConfig fileConfig))
      (fun message =>
         log LError ("Failed to load config from " ++ filePath ++ ": "
                     ++ message) ;;;
         ret mergedConfig)
  else
    log LDebug ("Config file not found: " ++ filePath) ;;;
    ret mergedConfig.

Fixpoint loadFiles (rt : Runtime) (fileType : FileType)
  (baseDirectory : string) (mergedConfig : Props) (files : list string)
  : M Props :=
  match files with
  | [] => ret mergedConfig
  | filename :: files' =>
      mergedConfig' <- loadFile rt fileType baseDirectory mergedConfig
                         filename ;;
      loadFiles rt fileType baseDirectory mergedConfig' files'
  end.

Definition loadConfigFiles (rt : Runtime) (provider : option SecretsProvider)
  (options : SecretsLoaderOptions) : M Props :=
  let fileType := fileTypeOf options in
  baseDirectory <- resolveBaseDirectory rt (root options) ;;
  match files options with
  | [] => log LWarn "No configuration files specified" ;;; ret []
  | files =>
      mergedConfig <- loadFiles rt fileType baseDirectory [] files ;;
      match provider with
      | Some secretProvider => resolveSecrets secretProvider mergedConfig ""
      | None => ret mergedConfig
      end
  end.

Definition load (rt : Runtime) (options : SecretsLoaderOptions)
  : M ConfigService :=
  provider <- loadProvider options ;;
  config <- loadConfigFiles rt provider options ;;
  ret {| internalConfig := config |}.

(** The factory handed to [ConfigModule.forRoot] *)
Definition createConfigFactory (rt : Runtime) (options : SecretsLoaderOptions)
  : M Props :=
  provider <- loadProvider options ;;
  loadConfigFiles rt provider options.

End SecretsLoaderService.

(* ------------------------------------------------------------------ *)
(** ** What resolution returns

    The tree [resolveSecrets] returns, without the log: a string the
    provider recognises and resolves is replaced, an object is resolved
    property by property, everything else stays.  [resolveSecrets_value]
    below proves that this is the value of the loop. *)

Fixpoint resolvedValue (secretProvider : SecretsProvider) (v : JsValue)
  : JsValue :=
  match v with
  | JStr s =>
      if isSecretReference secretProvider s then
        match value_of (resolveSecret secretProvider s) with
        | Ok resolved => SecretsLoaderService.secretToJs resolved
        | Throw _ => v
        end
      else v
  | JObj config =>
      JObj ((fix resolvedAll (config : Props) : Props :=
               match config with
               | [] => []
               | (key, x) :: rest =>
                   (key, resolvedValue secretProvider x) :: resolvedAll rest
               end) config)
  | _ => v
  end.

Fixpoint resolvedProps (secretProvider : SecretsProvider) (config : Props)
  : Props :=
  match config with
  | [] => []
  | (key, x) :: rest =>
      (key, resolvedValue secretProvider x) :: resolvedProps secretProvider rest
  end.

(** A quantified character set stops at [rest]: [rest] is empty or begins
    with a character outside the set. *)
Definition stops (cs : Regex.CharSet) (rest : string) : bool :=
  match rest with
  | EmptyString => true
  | String c _ => negb (Regex.set_has cs c)
  end.

(** The built-in providers, by [SecretsProviderType] *)
Inductive SecretsProviderType : Type :=
| AwsParameterStoreProvider
| AwsSecretsManagerProvider
| AzureKeyVaultProvider
| GoogleSecretManagerProvider.

Definition isSecretReferenceOf (type : SecretsProviderType) : string -> bool :=
  match type with
  | AwsParameterStoreProvider => AwsParameterStore.isSecretReference
  | AwsSecretsManagerProvider => AwsSecretsManager.isSecretReference
  | AzureKeyVaultProvider => AzureKeyVault.isSecretReference
  | GoogleSecretManagerProvider => GoogleSecretManager.isSecretReference
  end.

(* ------------------------------------------------------------------ *)
(** ** Sample inputs *)

Module Sample.



Import SecretsLoaderService.

(** A runtime whose base directory [/etc/app] holds one file,
    [settings.yaml], which parses to [{a: {b: "ref-b", c: "ref-c"}}] *)
Definition settings : Props :=
  [("a", JObj [("b", JStr "ref-b"); ("c", JStr "ref-c")])].

Definition runtime : Runtime :=
  {| dirname := "/srv/app/dist";
     cwd := "/srv/app";
     basename := fun _ => "dist";
     isAbsolute := fun p => JsString.startsWith p "/";
     join := fun a b => (a ++ "/" ++ b)%string;
     resolve := fun a b => (a ++ "/" ++ b)%string;
     existsSync := fun p => p =? "/etc/app/settings.yaml";
     readFileSync := fun _ => Ok "a: {b: ref-b, c: ref-c}";
     yaml_load := fun _ => Ok settings;
     JSON_parse := fun _ => Throw "Unexpected token" |}.

(** A provider that recognises [ref-...], resolves [ref-c] and fails on
    every other reference *)
Definition flakyProvider : SecretsProvider :=
  {| isSecretReference := fun value => JsString.startsWith value "ref-";
     resolveSecret := fun secretRef =>
       if secretRef =? "ref-c" then ret (SString "resolved-c")
       else throw "backend unavailable" |}.

Definition flakyOptions : SecretsLoaderOptions :=
  {| provider := Some (ProviderInstance flakyProvider);
     client := None;
     root := Some "/etc/app";
     files := ["settings.yaml"];
     fileType := None |}.

(** [{files: ['settings.yml'], fileType: 'json'}] *)
Definition jsonOptions : SecretsLoaderOptions :=
  {| provider := None;
     client := None;
     root := Some "/etc/app";
     files := ["settings.yml"];
     fileType := Some json |}.

(** An SSM client whose path lookup returns three named parameters, the
    second with an empty value *)
Definition ssmWithEmptyValue : AwsParameterStore.SSMClient :=
  {| AwsParameterStore.send := fun _ =>
       Ok {| AwsParameterStore.Parameters_ :=
               Some [ {| AwsParameterStore.Name := Some "/my-app/dev/db-host";
                         AwsParameterStore.Value := Some "db.example.com" |};
                      {| AwsParameterStore.Name := Some "/my-app/dev/db-password";
                         AwsParameterStore.Value := Some "" |};
                      {| AwsParameterStore.Name := Some "/my-app/dev/api-key";
                         AwsParameterStore.Value := Some "api-key-value" |} ];
             AwsParameterStore.Parameter_ := None |} |}.

(** The SSM client of the provider's test suite: three named parameters,
    each with a value *)
Definition ssmWithThree : AwsParameterStore.SSMClient :=
  {| AwsParameterStore.send := fun _ =>
       Ok {| AwsParameterStore.Parameters_ :=
               Some [ {| AwsParameterStore.Name := Some "/my-app/dev/db-host";
                         AwsParameterStore.Value := Some "db.example.com" |};
                      {| AwsParameterStore.Name := Some "/my-app/dev/db-password";
                         AwsParameterStore.Value := Some "secret-password" |};
                      {| AwsParameterStore.Name := Some "/my-app/dev/api-key";
                         AwsParameterStore.Value := Some "api-key-value" |} ];
             AwsParameterStore.Parameter_ := None |} |}.

(** A Key Vault client that knows one secret and ignores no argument: a
    request for a version returns that version's value *)
Definition keyVault : AzureKeyVault.SecretClient :=
  {| AzureKeyVault.getSecret := fun secretName options =>
       if secretName =? "my-secret" then
         match options with
         | Some {| AzureKeyVault.version := Some _ |} =>
             Ok (Some {| AzureKeyVault.value := Some "old-value" |})
         | _ => Ok (Some {| AzureKeyVault.value := Some "latest-value" |})
         end
       else Throw "SecretNotFound" |}.

(** An object that is none of the four SDK clients *)
Definition redisClient : Client :=
  {| constructor_name := "RedisClient";
     asSSMClient :=
       {| AwsParameterStore.send := fun _ =>
            Throw "this.client.send is not a function" |};
     asSecretsManager :=
       {| AwsSecretsManager.getSecretValue := fun _ =>
            Throw "this.client.getSecretValue is not a function" |};
     asSecretClient :=
       {| AzureKeyVault.getSecret := fun _ _ =>
            Throw "this.client.getSecret is not a function" |};
     asSecretManagerServiceClient :=
       {| GoogleSecretManager.accessSecretVersion := fun _ =>
            Throw "this.client.accessSecretVersion is not a function" |} |}.

Definition redisOptions : SecretsLoaderOptions :=
  {| provider := None;
     client := Some redisClient;
     root := Some "/etc/app";
     files := ["settings.yaml"];
     fileType := None |}.

End Sample.

(* ------------------------------------------------------------------ *)
(** ** Further notions used in the statements below *)

(** A tree as a parser builds it: no value left over from a merge of an
    array with a plain object. *)
Fixpoint is_json (v : JsValue) : bool :=
  match v with
  | JArr xs =>
      (fix all (l : list JsValue) : bool :=
         match l with
         | [] => true
         | x :: l' => is_json x && all l'
         end) xs
  | JObj ps =>
      (fix all (l : Props) : bool :=
         match l with
         | [] => true
         | (_, x) :: l' => is_json x && all l'
         end) ps
  | JExotic _ _ => false
  | _ => true
  end.

(** The last character of a string *)
Fixpoint lastChar (s : string) : option ascii :=
  match s with
  | EmptyString => None
  | String c EmptyString => Some c
  | String _ s' => lastChar s'
  end.

(** The dotted key of a path: [a.b.c] for [["a"; "b"; "c"]] *)
Definition dotted (path : list string) : string := String.concat "." path.

(** The keys [createSecretProvider] knows: the labels of its [switch] *)
Definition knownProviderKeys : list string :=
  ["AwsSecretsManagerProvider"; "SecretsManager";
   "AwsParameterStoreProvider"; "SSMClient";
   "AzureKeyVaultProvider"; "SecretClient";
   "GoogleSecretManagerProvider"; "SecretManagerServiceClient"].

(** [GoogleSecretManagerProvider] as src/src/providers has it: the same
    pattern and the same backend call as [GoogleSecretManager], inside a
    [try] whose [catch] logs the error and throws it again. *)
Module GoogleSecretManagerLogging.
Import GoogleSecretManager.

Definition isSecretReference (value : string) : bool :=
  Regex.test secretPathPattern value.

Definition resolveSecret (client : SecretManagerServiceClient)
  (secretRef : string) : M SecretValue :=
  try_catch
    (response <- await (accessSecretVersion client secretRef) ;;
     match response with
     | None => throw "Secret payload is missing"
     | Some r =>
         match payload r with
         | None => throw "Secret payload is missing"
         | Some p =>
             match data p with
             | None | Some (TextData EmptyString) =>
                 throw "Secret data is missing"
             | Some (TextData s) => ret (SString s)
             | Some (BufferData utf8) => ret (SString utf8)
             end
         end
     end)
    (fun message =>
       log LError ("Failed to get Google secret: " ++ message) ;;;
       throw message).

Definition provider (client : SecretManagerServiceClient) : SecretsProvider :=
  Build_SecretsProvider isSecretReference (resolveSecret client).

End GoogleSecretManagerLogging.

Module Sample2.
Import SecretsLoaderService.

(** [{port: 8080, name: "api"}] *)
Definition overrides : Props := [("port", JNum 8080); ("name", JStr "api")].

(** A runtime whose base directory [/etc/app] holds [settings.yaml] and
    [overrides.yaml], which parse, and [broken.yaml], which does not *)
Definition runtimeWithBrokenFile : Runtime :=
  {| dirname := "/srv/app/node_modules/nestjs-secrets/dist";
     cwd := "/srv/app";
     basename := fun _ => "dist";
     isAbsolute := fun p => JsString.startsWith p "/";
     join := fun a b => (a ++ "/" ++ b)%string;
     resolve := fun a b => "/srv/app/node_modules/nestjs-secrets";
     existsSync := fun p =>
       (p =? "/etc/app/settings.yaml") || (p =? "/etc/app/broken.yaml")
       || (p =? "/etc/app/overrides.yaml");
     readFileSync := fun p =>
       if p =? "/etc/app/broken.yaml" then Ok "a: ["
       else if p =? "/etc/app/overrides.yaml" then Ok "port: 8080"
       else Ok "a: {b: ref-b, c: ref-c}";
     yaml_load := fun content =>
       if content =? "a: [" then Throw "unexpected end of the stream"
       else if content =? "port: 8080" then Ok overrides
       else Ok Sample.settings;
     JSON_parse := fun _ => Throw "Unexpected token" |}.



(** [{files: ['missing.yaml']}] under [/etc/app] *)
Definition missingOptions : SecretsLoaderOptions :=
  {| provider := None;
     client := None;
     root := Some "/etc/app";
     files := ["missing.yaml"];
     fileType := None |}.

(** An SSM client that is out of reach *)
Definition unreachableSsm : AwsParameterStore.SSMClient :=
  {| AwsParameterStore.send := fun _ => Throw "connect ETIMEDOUT" |}.

(** An SSM client whose path lookup returns two parameters without value *)
Definition ssmWithoutValues : AwsParameterStore.SSMClient :=
  {| AwsParameterStore.send := fun _ =>
       Ok {| AwsParameterStore.Parameters_ :=
               Some [ {| AwsParameterStore.Name := Some "/app/a";
                         AwsParameterStore.Value := None |};
                      {| AwsParameterStore.Name := None;
                         AwsParameterStore.Value := Some "" |} ];
             AwsParameterStore.Parameter_ := None |} |}.

(** An SSM client, by its constructor name, that knows one parameter,
    [/app/db/password] *)
Definition ssmClient : Client :=
  {| constructor_name := "SSMClient";
     asSSMClient :=
       {| AwsParameterStore.send := fun command =>
            match command with
            | AwsParameterStore.GetParameterCommand input =>
                if AwsParameterStore.ParameterName input =? "/app/db/password"
                then Ok {| AwsParameterStore.Parameters_ := None;
                           AwsParameterStore.Parameter_ :=
                             Some {| AwsParameterStore.Name :=
                                       Some "/app/db/password";
                                     AwsParameterStore.Value := Some "s3cr3t" |} |}
                else Throw "ParameterNotFound"
            | _ => Throw "AccessDenied"
            end |};
     asSecretsManager :=
       {| AwsSecretsManager.getSecretValue := fun _ =>
            Throw "this.client.getSecretValue is not a function" |};
     asSecretClient :=
       {| AzureKeyVault.getSecret := fun _ _ =>
            Throw "this.client.getSecret is not a function" |};
     asSecretManagerServiceClient :=
       {| GoogleSecretManager.accessSecretVersion := fun _ =>
            Throw "this.client.accessSecretVersion is not a function" |} |}.

(** [{db: {password: "/app/db/password"}}] in [/etc/app/db.yaml] *)
Definition dbSettings : Props :=
  [("db", JObj [("password", JStr "/app/db/password")])].

Definition dbRuntime : Runtime :=
  {| dirname := "/srv/app/dist";
     cwd := "/srv/app";
     basename := fun _ => "dist";
     isAbsolute := fun p => JsString.startsWith p "/";
     join := fun a b => (a ++ "/" ++ b)%string;
     resolve := fun a b => (a ++ "/" ++ b)%string;
     existsSync := fun p => p =? "/etc/app/db.yaml";
     readFileSync := fun _ => Ok "db: {password: /app/db/password}";
     yaml_load := fun _ => Ok dbSettings;
     JSON_parse := fun _ => Throw "Unexpected token" |}.

Definition ssmOptions : SecretsLoaderOptions :=
  {| provider := None;
     client := Some ssmClient;
     root := Some "/etc/app";
     files := ["db.yaml"];
     fileType := None |}.

End Sample2.

(* ------------------------------------------------------------------ *)
(** * Properties *)

(** ** Strings and property lists *)

Lemma string_eqb_sym (a b : string) : (a =? b) = (b =? a).
Proof.
  destruct (String.eqb_spec a b) as [->|Hne].
  - now rewrite String.eqb_refl.
  - symmetry. apply String.eqb_neq. congruence.
Qed.

Lemma mem_In (key : string) (ks : list string) :
  Obj.mem key ks = true <-> In key ks.
Proof.
  induction ks as [|k ks IH]; simpl.
  - split; [discriminate | tauto].
  - rewrite orb_true_iff, IH, String.eqb_eq. tauto.
Qed.

Lemma get_None_not_mem (key : string) (o : Props) :
  Obj.mem key (Obj.keys o) = false -> Obj.get key o = None.
Proof.
  induction o as [|[k v] o IH]; simpl; [reflexivity|].
  intros H. apply orb_false_iff in H as [Hk Hm].
  rewrite Hk. auto.
Qed.

Lemma get_Some_In (key : string) (o : Props) (v : JsValue) :
  Obj.get key o = Some v -> In (key, v) o.
Proof.
  induction o as [|[k x] o IH]; simpl; [discriminate|].
  destruct (String.eqb_spec k key) as [->|Hne].
  - intros [= ->]. now left.
  - intros H. right. auto.
Qed.

Lemma get_set_same (key : string) (v : JsValue) (o : Props) :
  Obj.get key (Obj.set key v o) = Some v.
Proof.
  induction o as [|[k x] o IH]; simpl.
  - now rewrite String.eqb_refl.
  - destruct (k =? key) eqn:E; simpl; rewrite E; auto.
Qed.

Lemma get_set_other (key key' : string) (v : JsValue) (o : Props) :
  key' <> key -> Obj.get key (Obj.set key' v o) = Obj.get key o.
Proof.
  intros Hne. pose proof Hne as Hb. apply String.eqb_neq in Hb.
  induction o as [|[k x] o IH]; simpl.
  - now rewrite Hb.
  - destruct (k =? key') eqn:E; simpl.
    + apply String.eqb_eq in E. subst k. now rewrite Hb.
    + now rewrite IH.
Qed.


Lemma set_fresh (key : string) (v : JsValue) (o : Props) :
  Obj.mem key (Obj.keys o) = false -> Obj.set key v o = o ++ [(key, v)].
Proof.
  induction o as [|[k x] o IH]; simpl; [reflexivity|].
  intros H. apply orb_false_iff in H as [Hk Hm].
  rewrite Hk. now rewrite IH.
Qed.

(** ** lodash's merge *)


Lemma mergeValue_arrays (source object : list JsValue) :
  Lodash.mergeValue (JArr source) (Some (JArr object)) =
  JArr (Lodash.baseMergeArray source object).
Proof. reflexivity. Qed.

Lemma mergeValue_objects (source object : Props) :
  Lodash.mergeValue (JObj source) (Some (JObj object)) =
  JObj (Lodash.baseMerge source object).
Proof. reflexivity. Qed.

Lemma mergeValue_array_fresh (source : list JsValue) :
  Lodash.mergeValue (JArr source) None = JArr (Lodash.baseMergeArray source []).
Proof. reflexivity. Qed.

Lemma mergeValue_object_fresh (source : Props) :
  Lodash.mergeValue (JObj source) None = JObj (Lodash.baseMerge source []).
Proof. reflexivity. Qed.

Lemma well_formed_array (xs : list JsValue) :
  well_formed (JArr xs) = true <-> Forall (fun x => well_formed x = true) xs.
Proof.
  simpl. induction xs as [|x xs IH].
  - split; auto.
  - rewrite andb_true_iff, IH. split.
    + intros [H1 H2]. now constructor.
    + intros H. inversion H; subst. now split.
Qed.

Lemma well_formed_object (ps : Props) :
  well_formed (JObj ps) = true <->
  Obj.distinct (Obj.keys ps) = true /\
  Forall (fun kv => well_formed (snd kv) = true) ps.
Proof.
  simpl. rewrite andb_true_iff.
  assert (E : (fix all (l : Props) : bool :=
                 match l with
                 | [] => true
                 | (_, x) :: l' => well_formed x && all l'
                 end) ps = true <->
              Forall (fun kv => well_formed (snd kv) = true) ps).
  { induction ps as [|[k x] ps IH].
    - split; auto.
    - rewrite andb_true_iff, IH. split.
      + intros [H1 H2]. now constructor.
      + intros H. inversion H; subst. now split. }
  rewrite E. tauto.
Qed.



Lemma proto_safe_array (xs : list JsValue) :
  proto_safe (JArr xs) = true <-> Forall (fun x => proto_safe x = true) xs.
Proof.
  simpl. induction xs as [|x xs IH].
  - split; auto.
  - rewrite andb_true_iff, IH. split.
    + intros [H1 H2]. now constructor.
    + intros H. inversion H; subst. now split.
Qed.

Lemma proto_safe_object (ps : Props) :
  proto_safe (JObj ps) = true <->
  Forall (fun kv => Lodash.skipped (fst kv) (snd kv) = false /\
                    proto_safe (snd kv) = true) ps.
Proof.
  simpl. induction ps as [|[k x] ps IH].
  - split; auto.
  - rewrite !andb_true_iff, negb_true_iff, IH. split.
    + intros [[H1 H2] H3]. now constructor.
    + intros H. inversion H as [|? ? [H1 H2] H3]; subst. auto.
Qed.



Lemma baseMergeArray_fresh (source : list JsValue) :
  Lodash.baseMergeArray source [] =
  map (fun x => Lodash.mergeValue x None) source.
Proof.
  induction source as [|s source IH]; simpl; [reflexivity|]. now rewrite IH.
Qed.

Lemma baseMerge_fresh (source : Props) :
  forall object,
    Obj.distinct (Obj.keys source) = true ->
    (forall k, In k (Obj.keys source) -> Obj.mem k (Obj.keys object) = false) ->
    Forall (fun kv => Lodash.skipped (fst kv) (snd kv) = false /\
                      Lodash.mergeValue (snd kv) None = snd kv) source ->
    Lodash.baseMerge source object = object ++ source.
Proof.
  induction source as [|[k s] source IH]; intros object Hd Hfresh Hall.
  - simpl. now rewrite app_nil_r.
  - simpl in Hd. apply andb_true_iff in Hd as [Hk Hd].
    apply negb_true_iff in Hk.
    inversion Hall as [|? ? [Hkeep Hs] Hall']; subst. simpl in Hkeep, Hs.
    assert (Hko : Obj.mem k (Obj.keys object) = false)
      by (apply Hfresh; now left).
    simpl.
    rewrite Hkeep, (get_None_not_mem _ _ Hko), Hs, (set_fresh _ _ _ Hko).
    rewrite IH; auto.
    + now rewrite <- app_assoc.
    + intros x Hx. unfold Obj.keys. rewrite map_app. simpl.
      destruct (Obj.mem x (map fst object ++ [k])) eqn:E; [|reflexivity].
      apply mem_In in E. apply in_app_or in E as [E|[E|[]]].
      * apply mem_In in E. unfold Obj.keys in Hfresh.
        rewrite Hfresh in E; [discriminate | now right].
      * subst x. apply mem_In in Hx. unfold Obj.keys in *. simpl in *. congruence.
Qed.

(** Merging a well-formed tree that holds no skipped property into a
    missing or empty destination copies it. *)
Lemma mergeValue_clone (v : JsValue) :
  well_formed v = true -> proto_safe v = true -> Lodash.mergeValue v None = v.
Proof.
  induction v as [| | | |xs IH|ps IH|o s _ _] using JsValue_nested_ind;
    intros Hwf Hsafe; try reflexivity.
  - rewrite mergeValue_array_fresh, baseMergeArray_fresh. f_equal.
    apply well_formed_array in Hwf. apply proto_safe_array in Hsafe.
    induction xs as [|x xs IHxs]; [reflexivity|].
    inversion IH; inversion Hwf; inversion Hsafe; subst.
    simpl. f_equal; auto.
  - rewrite mergeValue_object_fresh. f_equal.
    apply well_formed_object in Hwf as [Hd Hall].
    apply proto_safe_object in Hsafe.
    rewrite baseMerge_fresh; auto.
    rewrite Forall_forall in *. intros kv Hin.
    destruct (Hsafe _ Hin) as [Hkeep Hs]. auto.
Qed.

Lemma baseMerge_clone (source : Props) :
  well_formed_props source = true -> proto_safe (JObj source) = true ->
  Lodash.baseMerge source [] = source.
Proof.
  intros Hwf Hsafe. pose proof (mergeValue_clone _ Hwf Hsafe) as H.
  rewrite mergeValue_object_fresh in H. now injection H.
Qed.


(** What [baseMerge] leaves at a key: a skipped source property leaves the
    destination's, any other is merged over it. *)
Lemma get_baseMerge (source : Props) :
  forall object key,
    Obj.distinct (Obj.keys source) = true ->
    Obj.get key (Lodash.baseMerge source object) =
    match Obj.get key source with
    | Some srcValue =>
        if Lodash.skipped key srcValue then Obj.get key object
        else Some (Lodash.mergeValue srcValue (Obj.get key object))
    | None => Obj.get key object
    end.
Proof.
  induction source as [|[k s] source IH]; intros object key Hd;
    [reflexivity|].
  simpl in Hd. apply andb_true_iff in Hd as [Hk Hd].
  apply negb_true_iff in Hk.
  simpl. rewrite IH by assumption.
  destruct (String.eqb_spec k key) as [->|Hne].
  - rewrite (get_None_not_mem _ _ Hk).
    destruct (Lodash.skipped key s); [reflexivity | apply get_set_same].
  - assert (E : Obj.get key
                  (if Lodash.skipped k s then object
                   else Obj.set k (Lodash.mergeValue s (Obj.get k object))
                          object)
                = Obj.get key object).
    { destruct (Lodash.skipped k s); [reflexivity|].
      now apply get_set_other. }
    now rewrite E.
Qed.

Lemma get_baseMerge_kept (source object : Props) (key : string)
  (srcValue : JsValue) :
  Obj.distinct (Obj.keys source) = true ->
  Obj.get key source = Some srcValue ->
  Lodash.skipped key srcValue = false ->
  Obj.get key (Lodash.baseMerge source object)
  = Some (Lodash.mergeValue srcValue (Obj.get key object)).
Proof. intros Hd Hget Hkeep. now rewrite get_baseMerge, Hget, Hkeep. Qed.










(** ** The monad *)

Lemma value_of_bind {A B} (m : M A) (f : A -> M B) (a : A) :
  value_of m = Ok a -> value_of (bind m f) = value_of (f a).
Proof.
  destruct m as [[x|e] l]; simpl; intros H; inversion H; subst.
  now destruct (f a).
Qed.

Lemma value_of_bind_Ok {A B} (m : M A) (f : A -> M B) (b : B) :
  value_of (bind m f) = Ok b ->
  exists a, value_of m = Ok a /\ value_of (f a) = Ok b.
Proof.
  destruct m as [[x|e] l]; simpl.
  - intros H. exists x. split; [reflexivity|]. now destruct (f x).
  - discriminate.
Qed.

(** ** Format selection *)

(** C2, the claim as stated, on [{files: ['settings.yml'], fileType: 'json'}]:
    the option is specified, yet it does not take precedence over the
    extension: [settings.yml] is parsed as YAML. *)
Lemma explicit_json_does_not_take_precedence :
  SecretsLoaderService.fileType Sample.jsonOptions
  = Some SecretsLoaderService.json /\
  SecretsLoaderService.parsedAs
    (SecretsLoaderService.fileTypeOf Sample.jsonOptions) "settings.yml"
  = SecretsLoaderService.yaml.
Proof. split; reflexivity. Qed.

(** C2, amended: for every load call, a file whose name ends in [.yml] or
    [.yaml] is parsed as YAML whatever the [fileType] option is; with
    [fileType] set to ['yaml'] every file is parsed as YAML; with [fileType]
    set to ['json'] a file whose name ends in neither [.yml] nor [.yaml] is
    parsed as JSON. *)
Theorem format_selection :
  forall (options : SecretsLoaderService.SecretsLoaderOptions)
         (filename : string),
    let format :=
      SecretsLoaderService.parsedAs (SecretsLoaderService.fileTypeOf options)
        filename in
    (JsString.endsWith filename ".yml" = true \/
     JsString.endsWith filename ".yaml" = true ->
     format = SecretsLoaderService.yaml) /\
    (SecretsLoaderService.fileType options = Some SecretsLoaderService.yaml ->
     format = SecretsLoaderService.yaml) /\
    (SecretsLoaderService.fileType options = Some SecretsLoaderService.json ->
     JsString.endsWith filename ".yml" = false ->
     JsString.endsWith filename ".yaml" = false ->
     format = SecretsLoaderService.json).
Proof.
  intros options filename format. subst format.
  unfold SecretsLoaderService.parsedAs, SecretsLoaderService.fileTypeOf.
  split; [|split].
  - intros [H|H]; rewrite H;
      destruct (SecretsLoaderService.fileType options) as [[|]|];
      simpl; try reflexivity.
    all: now destruct (JsString.endsWith filename ".yml").
  - now intros ->.
  - intros -> H1 H2. now rewrite H1, H2.
Qed.

Lemma format_selection_witness :
  SecretsLoaderService.parsedAs
    (SecretsLoaderService.fileTypeOf Sample.jsonOptions) "settings.json"
  = SecretsLoaderService.json.
Proof.
  destruct (format_selection Sample.jsonOptions "settings.json")
    as [_ [_ H]].
  apply H; reflexivity.
Defined.



(** ** The steps of the loader *)

Lemma value_of_try_catch_total {A} (body : M A) (handler : string -> M A) :
  (forall message, exists a, value_of (handler message) = Ok a) ->
  exists a, value_of (try_catch body handler) = Ok a.
Proof.
  intros Hh. destruct body as [[a|e] l]; simpl.
  - now exists a.
  - destruct (Hh e) as [a Ha]. exists a.
    destruct (handler e) as [r l']. exact Ha.
Qed.

Lemma resolveProperty_value (secretProvider : SecretsProvider) (v : JsValue) :
  forall fullPath,
    value_of (SecretsLoaderService.resolveProperty secretProvider v fullPath)
    = Ok (resolvedValue secretProvider v).
Proof.
  induction v as [| | |s|xs _|ps IH|o s _ _] using JsValue_nested_ind;
    intros fullPath; try reflexivity.
  - simpl. destruct (isSecretReference secretProvider s); [|reflexivity].
    destruct (resolveSecret secretProvider s) as [[r|e] l]; reflexivity.
  - simpl.
    match goal with
    | |- value_of (bind ?m _) = _ =>
        assert (E : value_of m =
                    Ok ((fix resolvedAll (config : Props) : Props :=
                           match config with
                           | [] => []
                           | (key, x) :: rest =>
                               (key, resolvedValue secretProvider x)
                               :: resolvedAll rest
                           end) ps))
    end.
    { induction ps as [|[k x] ps IHps]; [reflexivity|].
      inversion IH as [|? ? Hx Hps]; subst. simpl in Hx.
      rewrite (value_of_bind _ _ (Hx _)).
      rewrite (value_of_bind _ _ (IHps Hps)). reflexivity. }
    now rewrite (value_of_bind _ _ E).
Qed.

Lemma resolveSecrets_value (secretProvider : SecretsProvider) (config : Props) :
  forall path,
    value_of (SecretsLoaderService.resolveSecrets secretProvider config path)
    = Ok (resolvedProps secretProvider config).
Proof.
  induction config as [|[k x] config IH]; intros path; [reflexivity|].
  simpl.
  rewrite (value_of_bind _ _ (resolveProperty_value _ _ _)).
  rewrite (value_of_bind _ _ (IH _)). reflexivity.
Qed.

(** The recursive call of [resolveSecrets] on a nested object is the loop
    itself. *)
Lemma resolveProperty_object (secretProvider : SecretsProvider)
  (config : Props) (fullPath : string) :
  SecretsLoaderService.resolveProperty secretProvider (JObj config) fullPath
  = (config' <- SecretsLoaderService.resolveSecrets secretProvider config
                  fullPath ;;
     ret (JObj config')).
Proof.
  simpl. f_equal.
  induction config as [|[k x] config IH]; [reflexivity|].
  simpl. now rewrite IH.
Qed.

Lemma resolvedValue_object (secretProvider : SecretsProvider) (config : Props) :
  resolvedValue secretProvider (JObj config)
  = JObj (resolvedProps secretProvider config).
Proof.
  simpl. f_equal.
  induction config as [|[k x] config IH]; [reflexivity|].
  simpl. now rewrite IH.
Qed.

Lemma createSecretProvider_total (key : string)
  (client : SecretsLoaderService.Client) :
  exists p, value_of (SecretsLoaderService.createSecretProvider key client) = Ok p.
Proof.
  unfold SecretsLoaderService.createSecretProvider.
  repeat match goal with
         | |- context [if ?c then _ else _] => destruct c
         end; eexists; reflexivity.
Qed.

Lemma loadProvider_total (options : SecretsLoaderService.SecretsLoaderOptions) :
  exists p, value_of (SecretsLoaderService.loadProvider options) = Ok p.
Proof.
  unfold SecretsLoaderService.loadProvider.
  destruct (SecretsLoaderService.provider options) as [[key|p]|];
    destruct (SecretsLoaderService.client options) as [c|];
    try (eexists; reflexivity); apply createSecretProvider_total.
Qed.

Lemma resolveBaseDirectory_total (rt : SecretsLoaderService.Runtime)
  (directoryPath : option string) :
  exists d,
    value_of (SecretsLoaderService.resolveBaseDirectory rt directoryPath) = Ok d.
Proof.
  unfold SecretsLoaderService.resolveBaseDirectory.
  destruct directoryPath as [[|c s]|]; try (eexists; reflexivity).
  destruct (SecretsLoaderService.isAbsolute rt (String c s));
    [eexists; reflexivity|].
  destruct (SecretsLoaderService.isRelativePathFromCwd (String c s));
    eexists; reflexivity.
Qed.

Lemma loadFile_total (rt : SecretsLoaderService.Runtime)
  (fileType : SecretsLoaderService.FileType) (baseDirectory : string)
  (mergedConfig : Props) (filename : string) :
  exists merged,
    value_of (SecretsLoaderService.loadFile rt fileType baseDirectory
                mergedConfig filename) = Ok merged.
Proof.
  unfold SecretsLoaderService.loadFile.
  destruct (SecretsLoaderService.existsSync rt _).
  - apply value_of_try_catch_total. intros message. eexists. reflexivity.
  - eexists. reflexivity.
Qed.

Lemma loadFiles_total (rt : SecretsLoaderService.Runtime)
  (fileType : SecretsLoaderService.FileType) (baseDirectory : string)
  (files : list string) :
  forall mergedConfig,
  exists merged,
    value_of (SecretsLoaderService.loadFiles rt fileType baseDirectory
                mergedConfig files) = Ok merged.
Proof.
  induction files as [|f files IH]; intros mergedConfig.
  - eexists. reflexivity.
  - simpl.
    destruct (loadFile_total rt fileType baseDirectory mergedConfig f)
      as [m Hm].
    rewrite (value_of_bind _ _ Hm). apply IH.
Qed.





(** The tree [loadConfigFiles] returns with a provider is the tree it
    returns without one, resolved. *)
Lemma loadConfigFiles_resolves (rt : SecretsLoaderService.Runtime)
  (secretProvider : SecretsProvider)
  (options : SecretsLoaderService.SecretsLoaderOptions) (merged : Props) :
  value_of (SecretsLoaderService.loadConfigFiles rt None options) = Ok merged ->
  value_of (SecretsLoaderService.loadConfigFiles rt (Some secretProvider)
              options)
  = Ok (resolvedProps secretProvider merged).
Proof.
  unfold SecretsLoaderService.loadConfigFiles.
  destruct (resolveBaseDirectory_total rt (SecretsLoaderService.root options))
    as [d Hd].
  rewrite !(value_of_bind _ _ Hd).
  destruct (SecretsLoaderService.files options) as [|f files].
  - simpl. intros [= <-]. reflexivity.
  - destruct (loadFiles_total rt (SecretsLoaderService.fileTypeOf options) d
                (f :: files) []) as [m Hm].
    rewrite !(value_of_bind _ _ Hm). simpl. intros [= <-].
    apply resolveSecrets_value.
Qed.

Lemma loadConfigFiles_total (rt : SecretsLoaderService.Runtime)
  (provider : option SecretsProvider)
  (options : SecretsLoaderService.SecretsLoaderOptions) :
  exists config,
    value_of (SecretsLoaderService.loadConfigFiles rt provider options)
    = Ok config.
Proof.
  assert (Hnone : exists config,
             value_of (SecretsLoaderService.loadConfigFiles rt None options)
             = Ok config).
  { unfold SecretsLoaderService.loadConfigFiles.
    destruct (resolveBaseDirectory_total rt
                (SecretsLoaderService.root options)) as [d Hd].
    rewrite (value_of_bind _ _ Hd).
    destruct (SecretsLoaderService.files options) as [|f files].
    - eexists. reflexivity.
    - destruct (loadFiles_total rt (SecretsLoaderService.fileTypeOf options) d
                  (f :: files) []) as [m Hm].
      rewrite (value_of_bind _ _ Hm). eexists. reflexivity. }
  destruct provider as [sp|]; [|exact Hnone].
  destruct Hnone as [merged Hm]. eexists.
  apply (loadConfigFiles_resolves _ _ _ Hm).
Qed.

Lemma load_value (rt : SecretsLoaderService.Runtime)
  (options : SecretsLoaderService.SecretsLoaderOptions)
  (provider : option SecretsProvider) (config : Props) :
  value_of (SecretsLoaderService.loadProvider options) = Ok provider ->
  value_of (SecretsLoaderService.loadConfigFiles rt provider options)
  = Ok config ->
  value_of (SecretsLoaderService.load rt options)
  = Ok {| SecretsLoaderService.internalConfig := config |}.
Proof.
  intros Hp Hc. unfold SecretsLoaderService.load.
  rewrite (value_of_bind _ _ Hp), (value_of_bind _ _ Hc). reflexivity.
Qed.

(** ** Secret resolution *)

Lemma get_resolvedProps (secretProvider : SecretsProvider) (config : Props)
  (key : string) :
  Obj.get key (resolvedProps secretProvider config)
  = option_map (resolvedValue secretProvider) (Obj.get key config).
Proof.
  induction config as [|[k x] config IH]; [reflexivity|].
  simpl. now destruct (k =? key).
Qed.

Lemma keys_resolvedProps (secretProvider : SecretsProvider) (config : Props) :
  Obj.keys (resolvedProps secretProvider config) = Obj.keys config.
Proof.
  induction config as [|[k x] config IH]; [reflexivity|].
  simpl. now rewrite IH.
Qed.

Lemma resolvedValue_is_object (secretProvider : SecretsProvider) (v : JsValue)
  (ps' : Props) :
  resolvedValue secretProvider v = JObj ps' -> exists ps, v = JObj ps.
Proof.
  destruct v as [| | |s| |ps|]; try discriminate.
  - simpl. destruct (isSecretReference secretProvider s); [|discriminate].
    destruct (value_of (resolveSecret secretProvider s)) as [[s'|vs]|e];
      discriminate.
  - intros _. now exists ps.
Qed.

Lemma lookup_path_resolved (secretProvider : SecretsProvider)
  (path : list string) :
  forall v x,
    lookup_path path v = Some x ->
    lookup_path path (resolvedValue secretProvider v)
    = Some (resolvedValue secretProvider x).
Proof.
  induction path as [|key path IH]; intros v x H; simpl in H.
  - now injection H as ->.
  - destruct v as [| | | | |ps|]; try discriminate.
    destruct (Obj.get key ps) as [y|] eqn:E; try discriminate.
    rewrite resolvedValue_object. simpl.
    rewrite get_resolvedProps, E. simpl. now apply IH.
Qed.

Lemma lookup_path_resolved_inv (secretProvider : SecretsProvider)
  (path : list string) :
  forall v x',
    lookup_path path (resolvedValue secretProvider v) = Some x' ->
    exists x, lookup_path path v = Some x.
Proof.
  induction path as [|key path IH]; intros v x' H.
  - now exists v.
  - simpl in H.
    destruct (resolvedValue secretProvider v) as [| | | | |ps'|] eqn:Ev;
      try discriminate.
    destruct (resolvedValue_is_object _ _ Ev) as [ps ->].
    rewrite resolvedValue_object in Ev. injection Ev as <-.
    rewrite get_resolvedProps in H.
    destruct (Obj.get key ps) as [y|] eqn:E; try discriminate.
    simpl in H. destruct (IH _ _ H) as [x Hx].
    exists x. simpl. now rewrite E.
Qed.

(** C3: partial failure isolation.  When the provider throws on the
    reference at one key of the merged tree and resolves the reference at a
    sibling key, [load] returns a configuration in which the failing key
    still holds its reference string, the sibling holds its resolved value,
    and every other reference the provider resolves is resolved too. *)
Theorem partial_failure_isolation :
  forall (rt : SecretsLoaderService.Runtime)
         (options : SecretsLoaderService.SecretsLoaderOptions)
         (secretProvider : SecretsProvider) (merged : Props)
         (parent : list string) (failing sibling : string)
         (failingRef siblingRef message : string) (resolved : SecretValue),
    value_of (SecretsLoaderService.loadProvider options)
    = Ok (Some secretProvider) ->
    value_of (SecretsLoaderService.loadConfigFiles rt None options)
    = Ok merged ->
    lookup_path (parent ++ [failing]) (JObj merged) = Some (JStr failingRef) ->
    lookup_path (parent ++ [sibling]) (JObj merged) = Some (JStr siblingRef) ->
    isSecretReference secretProvider failingRef = true ->
    value_of (resolveSecret secretProvider failingRef) = Throw message ->
    isSecretReference secretProvider siblingRef = true ->
    value_of (resolveSecret secretProvider siblingRef) = Ok resolved ->
    exists config,
      value_of (SecretsLoaderService.load rt options)
      = Ok {| SecretsLoaderService.internalConfig := config |} /\
      lookup_path (parent ++ [failing]) (JObj config)
      = Some (JStr failingRef) /\
      lookup_path (parent ++ [sibling]) (JObj config)
      = Some (SecretsLoaderService.secretToJs resolved) /\
      (forall path ref r,
          lookup_path path (JObj merged) = Some (JStr ref) ->
          isSecretReference secretProvider ref = true ->
          value_of (resolveSecret secretProvider ref) = Ok r ->
          lookup_path path (JObj config)
          = Some (SecretsLoaderService.secretToJs r)).
Proof.
  intros rt options sp merged parent failing sibling failingRef siblingRef
    message resolved Hprov Hmerged Hf Hs Hfref Hfthrow Hsref Hsok.
  exists (resolvedProps sp merged).
  split; [|split; [|split]].
  - apply (load_value _ _ Hprov), loadConfigFiles_resolves, Hmerged.
  - rewrite <- resolvedValue_object, (lookup_path_resolved sp _ _ Hf).
    simpl. now rewrite Hfref, Hfthrow.
  - rewrite <- resolvedValue_object, (lookup_path_resolved sp _ _ Hs).
    simpl. now rewrite Hsref, Hsok.
  - intros path ref r Hp Href Hr.
    rewrite <- resolvedValue_object, (lookup_path_resolved sp _ _ Hp).
    simpl. now rewrite Href, Hr.
Qed.

Lemma partial_failure_isolation_witness :
  exists config,
    value_of (SecretsLoaderService.load Sample.runtime Sample.flakyOptions)
    = Ok {| SecretsLoaderService.internalConfig := config |} /\
    lookup_path ["a"; "b"] (JObj config) = Some (JStr "ref-b") /\
    lookup_path ["a"; "c"] (JObj config) = Some (JStr "resolved-c").
Proof.
  destruct (@partial_failure_isolation
              Sample.runtime Sample.flakyOptions Sample.flakyProvider
              Sample.settings ["a"] "b" "c" "ref-b" "ref-c"
              "backend unavailable" (SString "resolved-c")
              eq_refl eq_refl eq_refl eq_refl eq_refl eq_refl eq_refl eq_refl)
    as [config [H1 [H2 [H3 _]]]].
  exists config. split; [exact H1 | split; [exact H2 | exact H3]].
Defined.

(** C4: resolution preserves the shape of the tree.  [resolveSecrets]
    returns a tree in which every path of the original tree is still there
    and no other is: an object keeps its list of keys, a string the provider
    does not recognise is unchanged, a string it recognises holds a string
    or an array of strings, and every other leaf is unchanged. *)
Theorem resolution_preserves_shape :
  forall (secretProvider : SecretsProvider) (config : Props),
  exists resolved,
    value_of (SecretsLoaderService.resolveSecrets secretProvider config "")
    = Ok resolved /\
    Obj.keys resolved = Obj.keys config /\
    (forall path v,
        lookup_path path (JObj config) = Some v ->
        exists v',
          lookup_path path (JObj resolved) = Some v' /\
          match v with
          | JObj ps => exists ps', v' = JObj ps' /\ Obj.keys ps' = Obj.keys ps
          | JStr s =>
              if isSecretReference secretProvider s
              then (exists s', v' = JStr s') \/
                   (exists values, v' = JArr (map JStr values))
              else v' = JStr s
          | _ => v' = v
          end) /\
    (forall path v',
        lookup_path path (JObj resolved) = Some v' ->
        exists v, lookup_path path (JObj config) = Some v).
Proof.
  intros sp config. exists (resolvedProps sp config).
  split; [apply resolveSecrets_value|].
  split; [apply keys_resolvedProps|]. split.
  - intros path v Hv. exists (resolvedValue sp v). split.
    + rewrite <- resolvedValue_object. now apply lookup_path_resolved.
    + destruct v as [| | |s| |ps|]; try reflexivity.
      * simpl. destruct (isSecretReference sp s); [|reflexivity].
        destruct (value_of (resolveSecret sp s)) as [[s'|values]|e]; simpl.
        -- left. now exists s'.
        -- right. now exists values.
        -- left. now exists s.
      * exists (resolvedProps sp ps). split.
        -- apply resolvedValue_object.
        -- apply keys_resolvedProps.
  - intros path v' Hv'. rewrite <- resolvedValue_object in Hv'.
    eapply lookup_path_resolved_inv; eauto.
Qed.

(** ** Provider resolution *)

(** C6: a provider instance is returned unchanged; with neither a provider
    nor a client the result is [undefined] and [load] returns the merged
    files; with no provider and a client whose constructor name is not one
    of the eight known keys, a warning is logged, the result is [undefined]
    and [load] still returns the merged files, unresolved. *)
Theorem provider_resolution :
  forall (rt : SecretsLoaderService.Runtime)
         (options : SecretsLoaderService.SecretsLoaderOptions),
    (forall p,
        SecretsLoaderService.provider options
        = Some (SecretsLoaderService.ProviderInstance p) ->
        SecretsLoaderService.loadProvider options = (Ok (Some p), [])) /\
    (SecretsLoaderService.provider options = None ->
     SecretsLoaderService.client options = None ->
     SecretsLoaderService.loadProvider options = (Ok None, []) /\
     exists merged,
       value_of (SecretsLoaderService.loadConfigFiles rt None options)
       = Ok merged /\
       value_of (SecretsLoaderService.load rt options)
       = Ok {| SecretsLoaderService.internalConfig := merged |}) /\
    (forall c,
        SecretsLoaderService.provider options = None ->
        SecretsLoaderService.client options = Some c ->
        ~ In (SecretsLoaderService.constructor_name c)
             ["AwsSecretsManagerProvider"; "SecretsManager";
              "AwsParameterStoreProvider"; "SSMClient";
              "AzureKeyVaultProvider"; "SecretClient";
              "GoogleSecretManagerProvider"; "SecretManagerServiceClient"] ->
        SecretsLoaderService.loadProvider options
        = (Ok None,
           [(LWarn, ("Unsupported secret provider: "
                     ++ SecretsLoaderService.constructor_name c)%string)]) /\
        exists merged,
          value_of (SecretsLoaderService.loadConfigFiles rt None options)
          = Ok merged /\
          value_of (SecretsLoaderService.load rt options)
          = Ok {| SecretsLoaderService.internalConfig := merged |}).
Proof.
  intros rt options.
  destruct (loadConfigFiles_total rt None options) as [merged Hmerged].
  split; [|split].
  - intros p Hp. unfold SecretsLoaderService.loadProvider. now rewrite Hp.
  - intros Hp Hc.
    assert (E : SecretsLoaderService.loadProvider options = (Ok None, []))
      by (unfold SecretsLoaderService.loadProvider; now rewrite Hp, Hc).
    split; [exact E|]. exists merged. split; [exact Hmerged|].
    apply load_value with (provider := None); [now rewrite E | exact Hmerged].
  - intros c Hp Hc Hunknown.
    assert (E : SecretsLoaderService.loadProvider options
                = (Ok None,
                   [(LWarn, ("Unsupported secret provider: "
                             ++ SecretsLoaderService.constructor_name c)%string)])).
    { unfold SecretsLoaderService.loadProvider. rewrite Hp, Hc.
      unfold SecretsLoaderService.createSecretProvider.
      repeat match goal with
             | |- context [(?a =? ?b)%string] =>
                 let E := fresh "E" in
                 destruct (String.eqb_spec a b) as [E|E];
                 [exfalso; apply Hunknown; rewrite E; simpl; tauto|]
             end.
      reflexivity. }
    split; [exact E|]. exists merged. split; [exact Hmerged|].
    apply load_value with (provider := None); [now rewrite E | exact Hmerged].
Qed.

Lemma provider_resolution_witness :
  SecretsLoaderService.loadProvider Sample.redisOptions
  = (Ok None, [(LWarn, "Unsupported secret provider: RedisClient")]) /\
  value_of (SecretsLoaderService.load Sample.runtime Sample.redisOptions)
  = Ok {| SecretsLoaderService.internalConfig := Sample.settings |}.
Proof.
  destruct (provider_resolution Sample.runtime Sample.redisOptions)
    as [_ [_ H]].
  destruct (H Sample.redisClient eq_refl eq_refl) as [Hp [merged [Hm Hl]]].
  - simpl. intros [E|[E|[E|[E|[E|[E|[E|[E|[]]]]]]]]]; discriminate E.
  - split; [exact Hp|].
    rewrite Hl.
    assert (E : Ok merged = Ok Sample.settings) by (now rewrite <- Hm).
    now injection E as ->.
Defined.

(** ** AWS Parameter Store *)

Lemma mapM_parameterValue (params : list AwsParameterStore.SsmParameter) :
  value_of (AwsParameterStore.mapM AwsParameterStore.parameterValue params)
  = Ok (map (fun param =>
               match AwsParameterStore.Value param with
               | Some v => v
               | None => ""
               end) params).
Proof.
  induction params as [|param params IH]; [reflexivity|].
  simpl.
  assert (E : value_of (AwsParameterStore.parameterValue param)
              = Ok match AwsParameterStore.Value param with
                   | Some v => v
                   | None => ""
                   end).
  { unfold AwsParameterStore.parameterValue.
    destruct (AwsParameterStore.Value param) as [[|c v]|]; reflexivity. }
  rewrite (value_of_bind _ _ E), (value_of_bind _ _ IH). reflexivity.
Qed.

(** C7, the claim as stated, on a backend that returns three named
    parameters of which the second has an empty value: the path lookup
    yields two values, not those three. *)
Lemma empty_parameter_values_are_dropped :
  value_of (AwsParameterStore.resolveSecret Sample.ssmWithEmptyValue
              "/my-app/dev/*")
  = Ok (SArray ["db.example.com"; "api-key-value"]) /\
  value_of (AwsParameterStore.resolveSecret Sample.ssmWithEmptyValue
              "/my-app/dev/*")
  <> Ok (SArray ["db.example.com"; ""; "api-key-value"]).
Proof. split; [reflexivity | discriminate]. Qed.

(** C7, amended: a reference ending in [/*] performs one recursive,
    decrypting path lookup on the reference without its last two characters
    and returns, in the backend's order, the values of the returned
    parameters that are not empty (a parameter whose value is missing or
    empty is skipped) -- three named parameters with non-empty values yield
    exactly those three values -- and it raises the not-found error exactly
    when the lookup returns no parameter; any other reference performs a
    single-name lookup, which returns the one value and raises when the
    parameter is missing or its value is empty. *)
Theorem parameter_store_resolution :
  forall (client : AwsParameterStore.SSMClient) (secretRef : string)
         (response : AwsParameterStore.CommandOutput),
    (JsString.endsWith secretRef "/*" = true ->
     let basePath := JsString.dropLast 2 secretRef in
     AwsParameterStore.send client
       (AwsParameterStore.GetParametersByPathCommand
          {| AwsParameterStore.Path := basePath;
             AwsParameterStore.PathWithDecryption := true;
             AwsParameterStore.Recursive := true |}) = Ok response ->
     let result := value_of (AwsParameterStore.resolveSecret client secretRef) in
     let returned :=
       match AwsParameterStore.Parameters_ response with
       | Some params => params
       | None => []
       end in
     (result = Throw ("No parameters found at path: " ++ basePath)%string
      <-> returned = []) /\
     (returned <> [] ->
      result = Ok (SArray
                     (AwsParameterStore.filterBoolean
                        (map (fun param =>
                                match AwsParameterStore.Value param with
                                | Some v => v
                                | None => ""
                                end) returned)))) /\
     (forall n1 n2 n3 c1 v1 c2 v2 c3 v3,
         returned =
         [ {| AwsParameterStore.Name := n1;
              AwsParameterStore.Value := Some (String c1 v1) |};
           {| AwsParameterStore.Name := n2;
              AwsParameterStore.Value := Some (String c2 v2) |};
           {| AwsParameterStore.Name := n3;
              AwsParameterStore.Value := Some (String c3 v3) |} ] ->
         result = Ok (SArray [String c1 v1; String c2 v2; String c3 v3]))) /\
    (JsString.endsWith secretRef "/*" = false ->
     AwsParameterStore.send client
       (AwsParameterStore.GetParameterCommand
          {| AwsParameterStore.ParameterName := secretRef;
             AwsParameterStore.WithDecryption := true |}) = Ok response ->
     value_of (AwsParameterStore.resolveSecret client secretRef)
     = match AwsParameterStore.Parameter_ response with
       | None => Throw ("Parameter not found: " ++ secretRef)%string
       | Some parameter =>
           match AwsParameterStore.Value parameter with
           | None | Some EmptyString =>
               Throw ("Parameter value is empty for: " ++ secretRef)%string
           | Some v => Ok (SString v)
           end
       end).
Proof.
  intros client secretRef response. split.
  - intros Hends basePath Hsend result returned.
    assert (Hnone : returned = [] ->
                    result = Throw ("No parameters found at path: "
                                    ++ basePath)%string).
    { subst result returned basePath.
      unfold AwsParameterStore.resolveSecret,
        AwsParameterStore.retrieveParametersByPath.
      rewrite Hends, Hsend. simpl.
      destruct (AwsParameterStore.Parameters_ response) as [[|p ps]|];
        intros E; try discriminate; reflexivity. }
    assert (Hsome : returned <> [] ->
                    result = Ok (SArray
                     (AwsParameterStore.filterBoolean
                        (map (fun param =>
                                match AwsParameterStore.Value param with
                                | Some v => v
                                | None => ""
                                end) returned)))).
    { subst result returned basePath.
      unfold AwsParameterStore.resolveSecret,
        AwsParameterStore.retrieveParametersByPath.
      rewrite Hends, Hsend. simpl.
      destruct (AwsParameterStore.Parameters_ response) as [[|p ps]|];
        intros E; try (exfalso; now apply E).
      pose proof (mapM_parameterValue (p :: ps)) as Hm.
      destruct (AwsParameterStore.mapM AwsParameterStore.parameterValue
                  (p :: ps)) as [[values|e] l]; simpl in Hm;
        [|discriminate].
      injection Hm as ->. reflexivity. }
    split; [|split].
    + split; [|exact Hnone].
      intros Hthrow. destruct returned as [|p ps]; [reflexivity|].
      rewrite Hsome in Hthrow by discriminate. discriminate.
    + exact Hsome.
    + intros n1 n2 n3 c1 v1 c2 v2 c3 v3 E.
      rewrite Hsome by (rewrite E; discriminate). rewrite E. reflexivity.
  - intros Hends Hsend.
    unfold AwsParameterStore.resolveSecret,
      AwsParameterStore.retrieveSingleParameter.
    rewrite Hends, Hsend. simpl.
    destruct (AwsParameterStore.Parameter_ response) as [parameter|];
      [|reflexivity].
    destruct (AwsParameterStore.Value parameter) as [[|c v]|]; reflexivity.
Qed.

Lemma parameter_store_resolution_witness :
  value_of (AwsParameterStore.resolveSecret Sample.ssmWithThree "/my-app/dev/*")
  = Ok (SArray ["db.example.com"; "secret-password"; "api-key-value"]).
Proof.
  destruct (@parameter_store_resolution Sample.ssmWithThree "/my-app/dev/*"
              {| AwsParameterStore.Parameters_ :=
                   Some [ {| AwsParameterStore.Name := Some "/my-app/dev/db-host";
                             AwsParameterStore.Value := Some "db.example.com" |};
                          {| AwsParameterStore.Name := Some "/my-app/dev/db-password";
                             AwsParameterStore.Value := Some "secret-password" |};
                          {| AwsParameterStore.Name := Some "/my-app/dev/api-key";
                             AwsParameterStore.Value := Some "api-key-value" |} ];
                 AwsParameterStore.Parameter_ := None |})
    as [Hpath _].
  destruct (Hpath eq_refl eq_refl) as [_ [_ Hthree]].
  exact (Hthree _ _ _ _ _ _ _ _ _ eq_refl).
Defined.

(** ** Matching *)

Lemma stripPrefix_Some (prefix : string) :
  forall s rest,
    JsString.stripPrefix prefix s = Some rest -> s = (prefix ++ rest)%string.
Proof.
  induction prefix as [|p prefix IH]; intros s rest H; simpl in H.
  - now injection H as ->.
  - destruct s as [|c s]; [discriminate|].
    destruct (Ascii.eqb_spec p c) as [->|]; [|discriminate].
    simpl. f_equal. now apply IH.
Qed.

Lemma stripPrefix_append (prefix rest : string) :
  JsString.stripPrefix prefix (prefix ++ rest) = Some rest.
Proof.
  induction prefix as [|p prefix IH]; simpl; [reflexivity|].
  now rewrite Ascii.eqb_refl.
Qed.

Lemma string_length_append (a b : string) :
  String.length (a ++ b) = String.length a + String.length b.
Proof. induction a as [|c a IH]; simpl; [reflexivity | now rewrite IH]. Qed.

Lemma string_append_empty (a : string) : (a ++ "")%string = a.
Proof. induction a as [|c a IH]; simpl; [reflexivity | now rewrite IH]. Qed.

Lemma consumed_append (a b : string) : Regex.consumed (a ++ b) b = a.
Proof.
  unfold Regex.consumed. rewrite string_length_append.
  replace (String.length a + String.length b - String.length b)
    with (String.length a) by lia.
  induction a as [|c a IH]; simpl.
  - now destruct b.
  - now rewrite IH.
Qed.

Lemma consumed_whole (a : string) : Regex.consumed a "" = a.
Proof.
  pose proof (consumed_append a "") as H.
  now rewrite string_append_empty in H.
Qed.

Lemma plus_greedy_run {A} (cs : Regex.CharSet) (taken : string) :
  forall (rest : string) (k : string -> option A) (r : A),
    taken <> "" ->
    JsString.all (Regex.set_has cs) taken = true ->
    stops cs rest = true ->
    k rest = Some r ->
    Regex.plus_greedy cs (taken ++ rest) k = Some r.
Proof.
  induction taken as [|c taken IH]; intros rest k r Hne Hall Hstop Hk;
    [congruence|].
  simpl in Hall. apply andb_true_iff in Hall as [Hc Hall].
  simpl. rewrite Hc.
  destruct taken as [|c' taken].
  - simpl.
    assert (E : Regex.plus_greedy cs rest k = None).
    { destruct rest as [|d rest]; [reflexivity|].
      simpl in *. apply negb_true_iff in Hstop. now rewrite Hstop. }
    now rewrite E.
  - rewrite (IH rest k r); auto. discriminate.
Qed.

Lemma run_seq (r1 r2 : Regex.Regex) (s : string) (caps : Regex.Captures)
  (k : string -> Regex.Captures -> option Regex.Captures) :
  Regex.run (Regex.RSeq r1 r2) s caps k
  = Regex.run r1 s caps (fun rest caps' => Regex.run r2 rest caps' k).
Proof. reflexivity. Qed.

Lemma run_lit (l s : string) (caps : Regex.Captures)
  (k : string -> Regex.Captures -> option Regex.Captures) :
  Regex.run (Regex.RLit l) (l ++ s) caps k = k s caps.
Proof. simpl. now rewrite stripPrefix_append. Qed.

Lemma run_lit_Some (l s : string) (caps m : Regex.Captures)
  (k : string -> Regex.Captures -> option Regex.Captures) :
  Regex.run (Regex.RLit l) s caps k = Some m ->
  exists rest, s = (l ++ rest)%string.
Proof.
  simpl. destruct (JsString.stripPrefix l s) as [rest|] eqn:E;
    [|discriminate].
  intros _. exists rest. now apply stripPrefix_Some.
Qed.

Lemma run_group (r : Regex.Regex) (s : string) (caps : Regex.Captures)
  (k : string -> Regex.Captures -> option Regex.Captures) :
  Regex.run (Regex.RGroup r) s caps k
  = Regex.run r s (caps ++ [None])
      (fun rest caps' =>
         k rest (Regex.set_capture (List.length caps)
                   (Regex.consumed s rest) caps')).
Proof. reflexivity. Qed.

Lemma run_plus_run (cs : Regex.CharSet) (taken rest : string)
  (caps m : Regex.Captures)
  (k : string -> Regex.Captures -> option Regex.Captures) :
  taken <> "" ->
  JsString.all (Regex.set_has cs) taken = true ->
  stops cs rest = true ->
  k rest caps = Some m ->
  Regex.run (Regex.RPlus cs) (taken ++ rest) caps k = Some m.
Proof. intros. simpl. now apply plus_greedy_run. Qed.

(** ** Azure Key Vault *)

Section AzureReferences.
Variables vault name : string.
Hypothesis vault_not_empty : vault <> "".
Hypothesis vault_chars :
  JsString.all (Regex.set_has AzureKeyVault.vaultChars) vault = true.
Hypothesis name_not_empty : name <> "".
Hypothesis name_chars :
  JsString.all (Regex.set_has AzureKeyVault.segmentChars) name = true.

Lemma azure_exec_versioned (version : string) :
  version <> "" ->
  JsString.all (Regex.set_has AzureKeyVault.segmentChars) version = true ->
  Regex.exec AzureKeyVault.secretUrlPattern
    ("https://" ++ vault ++ ".vault.azure.net/secrets/" ++ name ++ "/"
     ++ version)
  = Some [Some name; Some version].
Proof.
  intros Hne Hchars.
  unfold Regex.exec, AzureKeyVault.secretUrlPattern.
  rewrite run_seq, run_lit, run_seq.
  apply run_plus_run; auto.
  rewrite run_seq, run_lit, run_seq, run_group.
  apply run_plus_run; auto.
  rewrite consumed_append.
  change (Regex.run (Regex.ROpt ?r) ?s ?caps ?k)
    with (match Regex.run r s caps k with
          | Some m => Some m
          | None => k s (caps ++ repeat None (Regex.groups r))
          end).
  rewrite run_seq, run_lit, run_group.
  rewrite <- (string_append_empty version) at 1.
  rewrite (@run_plus_run AzureKeyVault.segmentChars version ""
             _ [Some name; Some version]); auto.
  simpl. now rewrite consumed_whole.
Qed.

Lemma azure_exec_unversioned :
  Regex.exec AzureKeyVault.secretUrlPattern
    ("https://" ++ vault ++ ".vault.azure.net/secrets/" ++ name)
  = Some [Some name; None].
Proof.
  unfold Regex.exec, AzureKeyVault.secretUrlPattern.
  rewrite run_seq, run_lit, run_seq.
  apply run_plus_run; auto.
  rewrite run_seq, run_lit, run_seq, run_group.
  rewrite <- (string_append_empty name) at 1.
  apply run_plus_run; auto.
  simpl. now rewrite consumed_whole.
Qed.
End AzureReferences.

Lemma azure_resolveSecret_value (client : AzureKeyVault.SecretClient)
  (secretRef secretName : string) (m : Regex.Captures) :
  Regex.exec AzureKeyVault.secretUrlPattern secretRef = Some m ->
  Regex.group 1 m = Some secretName ->
  value_of (AzureKeyVault.resolveSecret client secretRef)
  = match AzureKeyVault.getSecret client secretName None with
    | Ok (Some {| AzureKeyVault.value := Some (String c v) |}) =>
        Ok (SString (String c v))
    | Ok _ =>
        Throw ("Secret '" ++ secretName
               ++ "' was retrieved but has an empty value")%string
    | Throw e => Throw e
    end.
Proof.
  intros Hexec Hgroup.
  unfold AzureKeyVault.resolveSecret, AzureKeyVault.parseSecretReference.
  rewrite Hexec, Hgroup. simpl.
  destruct (AzureKeyVault.getSecret client secretName None)
    as [[[[[|c v]|]]|]|e]; reflexivity.
Qed.

(** C8: for an Azure Key Vault reference with a version segment, the
    pattern extracts the version (capture group 2), but [resolveSecret]
    calls [getSecret] with the secret name and no version: what it returns
    is decided by that call alone, so it is what the reference without the
    version segment resolves to, and it raises when the fetched secret is
    missing or its value is missing or empty. *)
Theorem azure_version_is_parsed_but_not_forwarded :
  forall (client : AzureKeyVault.SecretClient) (vault name version : string),
    vault <> "" ->
    JsString.all (Regex.set_has AzureKeyVault.vaultChars) vault = true ->
    name <> "" ->
    JsString.all (Regex.set_has AzureKeyVault.segmentChars) name = true ->
    version <> "" ->
    JsString.all (Regex.set_has AzureKeyVault.segmentChars) version = true ->
    let secretRef :=
      ("https://" ++ vault ++ ".vault.azure.net/secrets/" ++ name ++ "/"
       ++ version)%string in
    let unversionedRef :=
      ("https://" ++ vault ++ ".vault.azure.net/secrets/" ++ name)%string in
    AzureKeyVault.isSecretReference secretRef = true /\
    Regex.exec AzureKeyVault.secretUrlPattern secretRef
    = Some [Some name; Some version] /\
    value_of (AzureKeyVault.resolveSecret client secretRef)
    = match AzureKeyVault.getSecret client name None with
      | Ok (Some {| AzureKeyVault.value := Some (String c v) |}) =>
          Ok (SString (String c v))
      | Ok _ =>
          Throw ("Secret '" ++ name
                 ++ "' was retrieved but has an empty value")%string
      | Throw e => Throw e
      end /\
    value_of (AzureKeyVault.resolveSecret client secretRef)
    = value_of (AzureKeyVault.resolveSecret client unversionedRef).
Proof.
  intros client vault name version Hv Hvc Hn Hnc Hver Hverc
    secretRef unversionedRef.
  pose proof (azure_exec_versioned Hv Hvc Hn Hnc Hver Hverc) as Hexec.
  pose proof (azure_exec_unversioned Hv Hvc Hn Hnc) as Hexec'.
  fold secretRef in Hexec. fold unversionedRef in Hexec'.
  split; [|split; [|split]].
  - unfold AzureKeyVault.isSecretReference, Regex.test. now rewrite Hexec.
  - exact Hexec.
  - apply (azure_resolveSecret_value client _ Hexec). reflexivity.
  - rewrite (azure_resolveSecret_value client _ Hexec (secretName := name))
      by reflexivity.
    now rewrite (azure_resolveSecret_value client _ Hexec'
                   (secretName := name)) by reflexivity.
Qed.

Lemma azure_version_is_parsed_but_not_forwarded_witness :
  Regex.exec AzureKeyVault.secretUrlPattern
    "https://my-vault.vault.azure.net/secrets/my-secret/a1b2c3d4e5f6"
  = Some [Some "my-secret"; Some "a1b2c3d4e5f6"] /\
  value_of (AzureKeyVault.resolveSecret Sample.keyVault
              "https://my-vault.vault.azure.net/secrets/my-secret/a1b2c3d4e5f6")
  = Ok (SString "latest-value").
Proof.
  destruct (@azure_version_is_parsed_but_not_forwarded
              Sample.keyVault "my-vault" "my-secret" "a1b2c3d4e5f6")
    as [_ [Hexec [Hvalue _]]];
    try discriminate; try reflexivity.
  split; [exact Hexec | exact Hvalue].
Defined.

(** ** Provider syntax boundaries *)

Lemma test_true_exec (r : Regex.Regex) (s : string) :
  Regex.test r s = true -> exists m, Regex.exec r s = Some m.
Proof.
  unfold Regex.test. destruct (Regex.exec r s) as [m|]; [|discriminate].
  intros _. now exists m.
Qed.

Lemma azure_reference_prefix (s : string) :
  AzureKeyVault.isSecretReference s = true ->
  exists rest, s = ("https://" ++ rest)%string.
Proof.
  intros H. apply test_true_exec in H as [m H].
  unfold Regex.exec, AzureKeyVault.secretUrlPattern in H.
  rewrite run_seq in H. now apply run_lit_Some in H.
Qed.

Lemma google_reference_prefix (s : string) :
  GoogleSecretManager.isSecretReference s = true ->
  exists rest, s = ("projects/" ++ rest)%string.
Proof.
  intros H. apply test_true_exec in H as [m H].
  unfold Regex.exec, GoogleSecretManager.secretPathPattern in H.
  rewrite run_seq in H. now apply run_lit_Some in H.
Qed.

Lemma secrets_manager_reference_prefix (s : string) :
  AwsSecretsManager.isSecretReference s = true ->
  exists rest, s = ("arn:aws:secretsmanager:" ++ rest)%string.
Proof.
  intros H. apply test_true_exec in H as [m H].
  unfold Regex.exec, AwsSecretsManager.arnPattern in H.
  rewrite run_seq in H. now apply run_lit_Some in H.
Qed.

Lemma parameter_store_reference_prefix (s : string) :
  AwsParameterStore.isSecretReference s = true ->
  (exists rest, s = ("/" ++ rest)%string) \/
  (exists rest, s = ("arn:" ++ rest)%string).
Proof.
  intros H. apply test_true_exec in H as [m H].
  unfold Regex.exec, AwsParameterStore.parameterPathPattern in H.
  change (Regex.run (Regex.RAlt ?r1 ?r2) ?s ?caps ?k)
    with (match Regex.run r1 s caps
                  (fun rest caps' =>
                     k rest (caps' ++ repeat None (Regex.groups r2))) with
          | Some m => Some m
          | None => Regex.run r2 s (caps ++ repeat None (Regex.groups r1)) k
          end) in H.
  match type of H with
  | match ?a with _ => _ end = _ => destruct a as [m'|] eqn:E
  end.
  - left. rewrite run_seq in E. now apply run_lit_Some in E.
  - right. rewrite run_seq in H. now apply run_lit_Some in H.
Qed.

Lemma prefix_append (p rest : string) : String.prefix p (p ++ rest) = true.
Proof.
  induction p as [|c p IH]; simpl.
  - now destruct rest.
  - destruct (ascii_dec c c); [exact IH | congruence].
Qed.

Ltac clash_at boundary type H :=
  let F := fresh "F" in
  pose proof (boundary type ltac:(discriminate) H) as F;
  simpl in F; congruence.

Ltac clash_with boundary H :=
  first [ clash_at boundary AwsParameterStoreProvider H
        | clash_at boundary AwsSecretsManagerProvider H
        | clash_at boundary AzureKeyVaultProvider H
        | clash_at boundary GoogleSecretManagerProvider H ].

(** The four reference syntaxes are pairwise disjoint. *)
Lemma reference_syntaxes_disjoint (p q : SecretsProviderType) (s : string) :
  p <> q -> isSecretReferenceOf p s = true -> isSecretReferenceOf q s = false.
Proof.
  assert (Hazure : forall t, t <> AzureKeyVaultProvider ->
            AzureKeyVault.isSecretReference s = true ->
            isSecretReferenceOf t s = false).
  { intros t Ht H. apply azure_reference_prefix in H as [rest ->].
    destruct t; try reflexivity. congruence. }
  assert (Hgoogle : forall t, t <> GoogleSecretManagerProvider ->
            GoogleSecretManager.isSecretReference s = true ->
            isSecretReferenceOf t s = false).
  { intros t Ht H. apply google_reference_prefix in H as [rest ->].
    destruct t; try reflexivity. congruence. }
  assert (Hsm : forall t, t <> AwsSecretsManagerProvider ->
            AwsSecretsManager.isSecretReference s = true ->
            isSecretReferenceOf t s = false).
  { intros t Ht H. apply secrets_manager_reference_prefix in H as [rest ->].
    destruct t; try reflexivity. congruence. }
  intros Hne Hp.
  destruct (isSecretReferenceOf q s) eqn:Hq; [|reflexivity].
  exfalso.
  destruct p, q; try congruence; simpl in Hp, Hq;
    solve [ clash_with Hazure Hp | clash_with Hazure Hq
          | clash_with Hgoogle Hp | clash_with Hgoogle Hq
          | clash_with Hsm Hp | clash_with Hsm Hq ].
Qed.

(** C9: provider syntax boundaries.  No string is a reference for two of
    the four providers, so each provider rejects every string in another
    provider's syntax: an Azure Key Vault URL is rejected by the Parameter
    Store pattern, a Secrets Manager ARN by the Parameter Store and Google
    patterns, a Google [projects/.../versions/...] path by the AWS and Azure
    patterns.  A string that begins with none of [/], [arn:], [https://] and
    [projects/] is rejected by all four. *)
Theorem provider_syntax_boundaries :
  forall value : string,
    (forall p q : SecretsProviderType,
        p <> q ->
        isSecretReferenceOf p value = true ->
        isSecretReferenceOf q value = false) /\
    (AzureKeyVault.isSecretReference value = true ->
     AwsParameterStore.isSecretReference value = false) /\
    (AwsSecretsManager.isSecretReference value = true ->
     AwsParameterStore.isSecretReference value = false /\
     GoogleSecretManager.isSecretReference value = false) /\
    (GoogleSecretManager.isSecretReference value = true ->
     AwsParameterStore.isSecretReference value = false /\
     AwsSecretsManager.isSecretReference value = false /\
     AzureKeyVault.isSecretReference value = false) /\
    (JsString.startsWith value "/" = false ->
     JsString.startsWith value "arn:" = false ->
     JsString.startsWith value "https://" = false ->
     JsString.startsWith value "projects/" = false ->
     forall p : SecretsProviderType, isSecretReferenceOf p value = false).
Proof.
  intros value.
  pose proof (fun p q => @reference_syntaxes_disjoint p q value) as D.
  split; [exact D|]. split; [|split; [|split]].
  - intros H.
    apply (D AzureKeyVaultProvider AwsParameterStoreProvider);
      [discriminate | exact H].
  - intros H. split.
    + apply (D AwsSecretsManagerProvider AwsParameterStoreProvider);
        [discriminate | exact H].
    + apply (D AwsSecretsManagerProvider GoogleSecretManagerProvider);
        [discriminate | exact H].
  - intros H. split; [|split].
    + apply (D GoogleSecretManagerProvider AwsParameterStoreProvider);
        [discriminate | exact H].
    + apply (D GoogleSecretManagerProvider AwsSecretsManagerProvider);
        [discriminate | exact H].
    + apply (D GoogleSecretManagerProvider AzureKeyVaultProvider);
        [discriminate | exact H].
  - unfold JsString.startsWith. intros Hslash Harn Hhttps Hprojects p.
    destruct (isSecretReferenceOf p value) eqn:E; [exfalso|reflexivity].
    destruct p; simpl in E.
    + apply parameter_store_reference_prefix in E as [[rest ->]|[rest ->]].
      * now rewrite prefix_append in Hslash.
      * now rewrite prefix_append in Harn.
    + apply secrets_manager_reference_prefix in E as [rest ->].
      change ("arn:aws:secretsmanager:" ++ rest)%string
        with ("arn:" ++ ("aws:secretsmanager:" ++ rest))%string in Harn.
      now rewrite prefix_append in Harn.
    + apply azure_reference_prefix in E as [rest ->].
      now rewrite prefix_append in Hhttps.
    + apply google_reference_prefix in E as [rest ->].
      now rewrite prefix_append in Hprojects.
Qed.

Lemma provider_syntax_boundaries_witness :
  AwsParameterStore.isSecretReference
    "https://my-vault.vault.azure.net/secrets/my-secret" = false /\
  (AwsParameterStore.isSecretReference
     "arn:aws:secretsmanager:us-east-1:123456789012:secret:my-secret" = false /\
   GoogleSecretManager.isSecretReference
     "arn:aws:secretsmanager:us-east-1:123456789012:secret:my-secret" = false) /\
  (AwsParameterStore.isSecretReference
     "projects/my-project/secrets/api-key/versions/latest" = false /\
   AwsSecretsManager.isSecretReference
     "projects/my-project/secrets/api-key/versions/latest" = false /\
   AzureKeyVault.isSecretReference
     "projects/my-project/secrets/api-key/versions/latest" = false) /\
  (forall p, isSecretReferenceOf p "not-a-parameter" = false).
Proof.
  split; [|split; [|split]].
  - exact (proj1 (proj2 (provider_syntax_boundaries
                           "https://my-vault.vault.azure.net/secrets/my-secret"))
                 eq_refl).
  - exact (proj1 (proj2 (proj2 (provider_syntax_boundaries
             "arn:aws:secretsmanager:us-east-1:123456789012:secret:my-secret")))
                 eq_refl).
  - exact (proj1 (proj2 (proj2 (proj2 (provider_syntax_boundaries
             "projects/my-project/secrets/api-key/versions/latest"))))
                 eq_refl).
  - exact (proj2 (proj2 (proj2 (proj2 (provider_syntax_boundaries
             "not-a-parameter"))))
                 eq_refl eq_refl eq_refl eq_refl).
Defined.

(** ** The expectations of the providers' test suites *)

Example parameter_store_accepts :
  forallb AwsParameterStore.isSecretReference
    ["/my-app/dev/db/password"; "/simple-param"; "/my-app/prod/api-key";
     "arn:aws:ssm:us-east-1:123456789012:parameter/my-secret";
     "/path/with-special_chars.-"] = true.
Proof. reflexivity. Qed.

Example parameter_store_rejects :
  existsb AwsParameterStore.isSecretReference
    ["not-a-parameter"; "my-param";
     "arn:aws:secretsmanager:us-east-1:123456789012:secret:my-secret";
     "https://my-vault.vault.azure.net/secrets/my-secret";
     "/param with spaces"] = false.
Proof. reflexivity. Qed.

Example secrets_manager_accepts :
  forallb AwsSecretsManager.isSecretReference
    ["arn:aws:secretsmanager:us-east-1:123456789012:secret:my-secret";
     "arn:aws:secretsmanager:eu-west-1:123456789012:secret:path/to/my-secret";
     "arn:aws:secretsmanager:us-west-2:123456789012:secret:my-secret-Ab1Cd2"]
  = true.
Proof. reflexivity. Qed.

Example secrets_manager_rejects :
  existsb AwsSecretsManager.isSecretReference
    ["not-a-secret"; "arn:aws:s3:::my-bucket/my-object";
     "projects/123456/secrets/my-secret";
     "https://myvault.vault.azure.net/secrets/mysecret"] = false.
Proof. reflexivity. Qed.

Example key_vault_accepts :
  forallb AzureKeyVault.isSecretReference
    ["https://my-vault.vault.azure.net/secrets/my-secret";
     "https://my-vault.vault.azure.net/secrets/my-secret/version123";
     "https://my-vault-name.vault.azure.net/secrets/db-password"] = true.
Proof. reflexivity. Qed.

Example key_vault_rejects :
  existsb AzureKeyVault.isSecretReference
    ["not-a-secret"; "https://example.com/secrets/test";
     "https://my-vault.vault.azure.net/keys/my-key"] = false.
Proof. reflexivity. Qed.

Example google_accepts :
  forallb GoogleSecretManager.isSecretReference
    ["projects/my-project/secrets/my-secret/versions/latest";
     "projects/123456/secrets/db-password/versions/1";
     "projects/my-project-id/secrets/api_key/versions/latest"] = true.
Proof. reflexivity. Qed.

Example google_rejects :
  existsb GoogleSecretManager.isSecretReference
    ["not-a-secret"; "projects/my-project/secrets";
     "arn:aws:secretsmanager:us-east-1:123456789012:secret:my-secret"] = false.
Proof. reflexivity. Qed.

Example key_vault_resolves_by_name :
  value_of (AzureKeyVault.resolveSecret Sample.keyVault
              "https://my-vault.vault.azure.net/secrets/my-secret")
  = Ok (SString "latest-value") /\
  value_of (AzureKeyVault.resolveSecret Sample.keyVault "invalid-url")
  = Throw "Invalid Azure Key Vault secret reference: invalid-url. Expected format: https://<vault-name>.vault.azure.net/secrets/<secret-name>[/<version>]".
Proof. split; reflexivity. Qed.

Example parameter_store_resolves_three :
  AwsParameterStore.resolveSecret Sample.ssmWithThree "/my-app/dev/*"
  = (Ok (SArray ["db.example.com"; "secret-password"; "api-key-value"]), []).
Proof. reflexivity. Qed.

Example parameter_store_warns_on_empty_value :
  written (AwsParameterStore.resolveSecret Sample.ssmWithEmptyValue
             "/my-app/dev/*")
  = [(LWarn, "Parameter /my-app/dev/db-password has no value")].
Proof. reflexivity. Qed.

(* ------------------------------------------------------------------ *)
(** * Further properties of the loader and the providers *)

(** ** The log of a computation *)

Lemma written_bind {A B} (m : M A) (f : A -> M B) (a : A) :
  value_of m = Ok a -> written (bind m f) = written m ++ written (f a).
Proof.
  destruct m as [[x|e] l]; simpl; intros H; inversion H; subst.
  now destruct (f a).
Qed.

(** ** Loading files *)

Lemma loadFile_missing (rt : SecretsLoaderService.Runtime)
  (fileType : SecretsLoaderService.FileType) (baseDirectory : string)
  (mergedConfig : Props) (filename : string) :
  SecretsLoaderService.existsSync rt
    (SecretsLoaderService.join rt baseDirectory filename) = false ->
  value_of (SecretsLoaderService.loadFile rt fileType baseDirectory
              mergedConfig filename) = Ok mergedConfig.
Proof.
  intros H. unfold SecretsLoaderService.loadFile. now rewrite H.
Qed.

Lemma loadFiles_all_missing (rt : SecretsLoaderService.Runtime)
  (fileType : SecretsLoaderService.FileType) (baseDirectory : string)
  (files : list string) :
  (forall filename,
      In filename files ->
      SecretsLoaderService.existsSync rt
        (SecretsLoaderService.join rt baseDirectory filename) = false) ->
  forall mergedConfig,
    value_of (SecretsLoaderService.loadFiles rt fileType baseDirectory
                mergedConfig files) = Ok mergedConfig.
Proof.
  induction files as [|f files IH]; intros Hmissing mergedConfig;
    [reflexivity|].
  simpl.
  rewrite (value_of_bind _ _
             (loadFile_missing rt fileType baseDirectory mergedConfig f
                (Hmissing f (or_introl eq_refl)))).
  apply IH. intros x Hx. apply Hmissing. now right.
Qed.

(** X1: a file that does not exist contributes nothing: the loop over
    [files] returns what it returns on the files that exist. *)
Theorem missing_files_are_skipped :
  forall (rt : SecretsLoaderService.Runtime)
         (fileType : SecretsLoaderService.FileType) (baseDirectory : string)
         (files : list string) (mergedConfig : Props),
    value_of (SecretsLoaderService.loadFiles rt fileType baseDirectory
                mergedConfig files)
    = value_of (SecretsLoaderService.loadFiles rt fileType baseDirectory
                  mergedConfig
                  (filter (fun filename =>
                             SecretsLoaderService.existsSync rt
                               (SecretsLoaderService.join rt baseDirectory
                                  filename)) files)).
Proof.
  intros rt fileType baseDirectory files.
  induction files as [|f files IH]; intros mergedConfig; [reflexivity|].
  simpl.
  destruct (SecretsLoaderService.existsSync rt
              (SecretsLoaderService.join rt baseDirectory f)) eqn:E.
  - simpl.
    destruct (loadFile_total rt fileType baseDirectory mergedConfig f)
      as [m Hm].
    rewrite !(value_of_bind _ _ Hm). apply IH.
  - rewrite (value_of_bind _ _
               (loadFile_missing rt fileType baseDirectory mergedConfig f E)).
    apply IH.
Qed.

(** X2: when none of the listed files exists (in particular when the list
    is empty), [loadConfigFiles] returns the empty tree, with or without a
    provider. *)
Theorem no_existing_file_gives_empty_tree :
  forall (rt : SecretsLoaderService.Runtime)
         (provider : option SecretsProvider)
         (options : SecretsLoaderService.SecretsLoaderOptions)
         (baseDirectory : string),
    value_of (SecretsLoaderService.resolveBaseDirectory rt
                (SecretsLoaderService.root options)) = Ok baseDirectory ->
    (forall filename,
        In filename (SecretsLoaderService.files options) ->
        SecretsLoaderService.existsSync rt
          (SecretsLoaderService.join rt baseDirectory filename) = false) ->
    value_of (SecretsLoaderService.loadConfigFiles rt provider options)
    = Ok [].
Proof.
  intros rt provider options baseDirectory Hbase Hmissing.
  unfold SecretsLoaderService.loadConfigFiles.
  rewrite (value_of_bind _ _ Hbase).
  assert (Hm : value_of (SecretsLoaderService.loadFiles rt
                           (SecretsLoaderService.fileTypeOf options)
                           baseDirectory []
                           (SecretsLoaderService.files options)) = Ok []).
  { now apply loadFiles_all_missing. }
  destruct (SecretsLoaderService.files options) as [|f files];
    [reflexivity|].
  rewrite (value_of_bind _ _ Hm). now destruct provider.
Qed.

Lemma no_existing_file_gives_empty_tree_witness :
  value_of (SecretsLoaderService.loadConfigFiles Sample.runtime
              (Some Sample.flakyProvider) Sample2.missingOptions)
  = Ok [].
Proof.
  apply (@no_existing_file_gives_empty_tree Sample.runtime
           (Some Sample.flakyProvider) Sample2.missingOptions "/etc/app"
           eq_refl).
  intros filename [<-|[]]. reflexivity.
Defined.

(** X3: a file that exists but cannot be read or parsed contributes
    nothing: the error is logged with the file's path and message, the
    merged tree is left as it was and the remaining files are loaded. *)
Theorem unreadable_file_is_isolated :
  forall (rt : SecretsLoaderService.Runtime)
         (fileType : SecretsLoaderService.FileType) (baseDirectory : string)
         (mergedConfig : Props) (filename message : string)
         (files : list string),
    let filePath := SecretsLoaderService.join rt baseDirectory filename in
    SecretsLoaderService.existsSync rt filePath = true ->
    SecretsLoaderService.readFileSync rt filePath = Throw message \/
    (exists fileContent,
        SecretsLoaderService.readFileSync rt filePath = Ok fileContent /\
        SecretsLoaderService.parseContent rt
          (SecretsLoaderService.parsedAs fileType filename) fileContent
        = Throw message) ->
    SecretsLoaderService.loadFile rt fileType baseDirectory mergedConfig
      filename
    = (Ok mergedConfig,
       [(LDebug, ("Loading config from " ++ filePath)%string);
        (LError, ("Failed to load config from " ++ filePath ++ ": "
                  ++ message)%string)]) /\
    value_of (SecretsLoaderService.loadFiles rt fileType baseDirectory
                mergedConfig (filename :: files))
    = value_of (SecretsLoaderService.loadFiles rt fileType baseDirectory
                  mergedConfig files).
Proof.
  intros rt fileType baseDirectory mergedConfig filename message files
    filePath Hex Hbad.
  assert (E : SecretsLoaderService.loadFile rt fileType baseDirectory
                mergedConfig filename
              = (Ok mergedConfig,
                 [(LDebug, ("Loading config from " ++ filePath)%string);
                  (LError, ("Failed to load config from " ++ filePath ++ ": "
                            ++ message)%string)])).
  { unfold SecretsLoaderService.loadFile. fold filePath. rewrite Hex.
    destruct Hbad as [Hread|[fileContent [Hread Hparse]]]; rewrite Hread.
    - reflexivity.
    - cbv beta iota delta [bind await log]. rewrite Hparse. reflexivity. }
  split; [exact E|].
  assert (Hv : value_of (SecretsLoaderService.loadFile rt fileType
                           baseDirectory mergedConfig filename)
               = Ok mergedConfig) by now rewrite E.
  simpl. now rewrite (value_of_bind _ _ Hv).
Qed.

Lemma unreadable_file_is_isolated_witness :
  value_of (SecretsLoaderService.loadFiles Sample2.runtimeWithBrokenFile
              SecretsLoaderService.yaml "/etc/app" []
              ["broken.yaml"; "settings.yaml"])
  = value_of (SecretsLoaderService.loadFiles Sample2.runtimeWithBrokenFile
                SecretsLoaderService.yaml "/etc/app" [] ["settings.yaml"]).
Proof.
  refine (proj2 (@unreadable_file_is_isolated Sample2.runtimeWithBrokenFile
                   SecretsLoaderService.yaml "/etc/app" [] "broken.yaml"
                   "unexpected end of the stream" ["settings.yaml"]
                   eq_refl _)).
  right. exists "a: [". split; reflexivity.
Defined.




(** ** The merge *)

Lemma set_same (key : string) (x : JsValue) (o : Props) :
  Obj.get key o = Some x -> Obj.set key x o = o.
Proof.
  induction o as [|[k y] o IH]; simpl; [discriminate|].
  destruct (String.eqb_spec k key) as [->|Hne].
  - now intros [= ->].
  - intros H. now rewrite IH.
Qed.

Lemma baseMerge_absorbed (source : Props) :
  forall object,
    Obj.distinct (Obj.keys source) = true ->
    (forall k srcValue,
        Obj.get k source = Some srcValue ->
        Lodash.skipped k srcValue = true \/
        exists x, Obj.get k object = Some x /\
                  Lodash.mergeValue srcValue (Some x) = x) ->
    Lodash.baseMerge source object = object.
Proof.
  induction source as [|[k s] source IH]; intros object Hd Hall;
    [reflexivity|].
  simpl in Hd. apply andb_true_iff in Hd as [Hk Hd].
  apply negb_true_iff in Hk.
  assert (Hrest : forall k' s',
             Obj.get k' source = Some s' ->
             Lodash.skipped k' s' = true \/
             exists x, Obj.get k' object = Some x /\
                       Lodash.mergeValue s' (Some x) = x).
  { intros k' s' Hk'. apply Hall. simpl.
    destruct (String.eqb_spec k k') as [<-|]; [|assumption].
    rewrite (get_None_not_mem _ _ Hk) in Hk'. discriminate. }
  simpl.
  destruct (Hall k s) as [Hskip|[x [Hx Hm]]];
    [simpl; now rewrite String.eqb_refl| |].
  - rewrite Hskip. now apply IH.
  - destruct (Lodash.skipped k s); [now apply IH|].
    rewrite Hx, Hm, (set_same _ _ Hx). now apply IH.
Qed.

Lemma is_json_array (xs : list JsValue) :
  is_json (JArr xs) = true <-> Forall (fun x => is_json x = true) xs.
Proof.
  simpl. induction xs as [|x xs IH].
  - split; auto.
  - rewrite andb_true_iff, IH. split.
    + intros [H1 H2]. now constructor.
    + intros H. inversion H; subst. now split.
Qed.

Lemma is_json_object (ps : Props) :
  is_json (JObj ps) = true <-> Forall (fun kv => is_json (snd kv) = true) ps.
Proof.
  simpl. induction ps as [|[k x] ps IH].
  - split; auto.
  - rewrite andb_true_iff, IH. split.
    + intros [H1 H2]. now constructor.
    + intros H. inversion H; subst. now split.
Qed.

Lemma get_In_distinct (ps : Props) (key : string) (v : JsValue) :
  Obj.distinct (Obj.keys ps) = true -> In (key, v) ps ->
  Obj.get key ps = Some v.
Proof.
  induction ps as [|[k x] ps IH]; intros Hd Hin; [destruct Hin|].
  simpl in Hd. apply andb_true_iff in Hd as [Hk Hd].
  apply negb_true_iff in Hk. simpl.
  destruct Hin as [[= -> ->]|Hin].
  - now rewrite String.eqb_refl.
  - destruct (String.eqb_spec k key) as [->|]; [|auto].
    assert (Hmem : Obj.mem key (Obj.keys ps) = true).
    { apply mem_In. unfold Obj.keys. apply in_map_iff.
      now exists (key, v). }
    congruence.
Qed.

(** What [merge] makes of a tree in an empty destination absorbs the
    tree: merging the tree over it changes nothing. *)
Lemma mergeValue_absorbed (v : JsValue) :
  well_formed v = true -> is_json v = true ->
  Lodash.mergeValue v (Some (Lodash.mergeValue v None))
  = Lodash.mergeValue v None.
Proof.
  induction v as [| | | |xs IH|ps IH|o s _ _] using JsValue_nested_ind;
    intros Hwf Hjson; try reflexivity; try discriminate.
  - rewrite mergeValue_array_fresh, mergeValue_arrays. f_equal.
    apply well_formed_array in Hwf. apply is_json_array in Hjson.
    induction xs as [|x xs IHxs]; [reflexivity|].
    inversion IH; inversion Hwf; inversion Hjson; subst.
    simpl. f_equal; auto.
  - rewrite mergeValue_object_fresh, mergeValue_objects. f_equal.
    pose proof Hwf as Hwf'. apply well_formed_object in Hwf' as [Hd Hall].
    apply is_json_object in Hjson.
    apply baseMerge_absorbed; [assumption|].
    intros k srcValue Hget.
    destruct (Lodash.skipped k srcValue) eqn:Hskip; [now left | right].
    exists (Lodash.mergeValue srcValue None). split.
    + now rewrite (get_baseMerge_kept _ _ _ Hd Hget Hskip).
    + apply get_Some_In in Hget.
      rewrite Forall_forall in IH, Hall, Hjson.
      apply (IH _ Hget); [apply (Hall _ Hget) | apply (Hjson _ Hget)].
Qed.

(** A tree that [merge] copies whole holds no skipped property. *)
Lemma mergeValue_clone_inv (v : JsValue) :
  well_formed v = true -> is_json v = true ->
  Lodash.mergeValue v None = v -> proto_safe v = true.
Proof.
  induction v as [| | | |xs IH|ps IH|o s _ _] using JsValue_nested_ind;
    intros Hwf Hjson Hsame; try reflexivity; try discriminate.
  - rewrite mergeValue_array_fresh, baseMergeArray_fresh in Hsame.
    injection Hsame as Hsame.
    apply well_formed_array in Hwf. apply is_json_array in Hjson.
    apply proto_safe_array.
    induction xs as [|x xs IHxs]; [constructor|].
    inversion IH; inversion Hwf; inversion Hjson; subst.
    simpl in Hsame. injection Hsame as Hx Hxs.
    constructor; auto.
  - rewrite mergeValue_object_fresh in Hsame. injection Hsame as Hsame.
    pose proof Hwf as Hwf'. apply well_formed_object in Hwf' as [Hd Hall].
    apply is_json_object in Hjson.
    apply proto_safe_object. rewrite Forall_forall in *.
    intros [k x] Hin. simpl.
    pose proof (get_In_distinct _ _ _ Hd Hin) as Hget.
    pose proof (get_baseMerge ps [] k Hd) as Hmerged.
    rewrite Hsame, Hget in Hmerged. simpl in Hmerged.
    destruct (Lodash.skipped k x); [discriminate|].
    injection Hmerged as Hx. split; [reflexivity|].
    apply (IH _ Hin); [apply (Hall _ Hin) | apply (Hjson _ Hin) | now symmetry].
Qed.

(** X5: for a well-formed tree as a parser builds it, merging an empty file
    into it and merging it into itself both give what merging it into the
    empty configuration gives (the empty tree is a two-sided identity and
    the merge is idempotent), and that is the tree itself exactly when no
    object in it has an array or an object under the key [__proto__]. *)
Theorem merge_identity_and_idempotence :
  forall F : Props,
    well_formed_props F = true ->
    is_json (JObj F) = true ->
    SecretsLoaderService.mergeConfig F []
    = SecretsLoaderService.mergeConfig [] F /\
    SecretsLoaderService.mergeConfig F F
    = SecretsLoaderService.mergeConfig [] F /\
    (SecretsLoaderService.mergeConfig [] F = F <->
     proto_safe (JObj F) = true).
Proof.
  intros F Hwf Hjson.
  unfold SecretsLoaderService.mergeConfig, Lodash.merge. simpl.
  split; [reflexivity|]. split.
  - pose proof (mergeValue_absorbed _ Hwf Hjson) as H.
    rewrite mergeValue_object_fresh, mergeValue_objects in H.
    now injection H.
  - split.
    + intros Hsame. apply (@mergeValue_clone_inv (JObj F) Hwf Hjson).
      rewrite mergeValue_object_fresh. now f_equal.
    + intros Hsafe. now apply baseMerge_clone.
Qed.

Lemma merge_identity_and_idempotence_witness :
  SecretsLoaderService.mergeConfig Sample.settings Sample.settings
  = Sample.settings.
Proof.
  destruct (@merge_identity_and_idempotence Sample.settings eq_refl eq_refl)
    as [_ [Hsame Hkept]].
  rewrite Hsame. now apply Hkept.
Defined.




(** ** The loader as a whole *)

Lemma createSecretProvider_known (key : string)
  (client : SecretsLoaderService.Client) :
  In key knownProviderKeys ->
  exists p,
    SecretsLoaderService.createSecretProvider key client = (Ok (Some p), []).
Proof.
  unfold knownProviderKeys. simpl.
  intros [<-|[<-|[<-|[<-|[<-|[<-|[<-|[<-|[]]]]]]]]];
    eexists; reflexivity.
Qed.

Lemma createSecretProvider_unknown (key : string)
  (client : SecretsLoaderService.Client) :
  ~ In key knownProviderKeys ->
  SecretsLoaderService.createSecretProvider key client
  = (Ok None,
     [(LWarn, ("Unsupported secret provider: "
               ++ SecretsLoaderService.constructor_name client)%string)]).
Proof.
  intros Hunknown. unfold SecretsLoaderService.createSecretProvider.
  repeat match goal with
         | |- context [(?a =? ?b)%string] =>
             let E := fresh "E" in
             destruct (String.eqb_spec a b) as [E|E];
             [exfalso; apply Hunknown; rewrite E;
              unfold knownProviderKeys; simpl; tauto|]
         end.
  reflexivity.
Qed.

Lemma knownProviderKeys_dec (key : string) :
  {In key knownProviderKeys} + {~ In key knownProviderKeys}.
Proof. apply in_dec, string_dec. Qed.

(** X8: when secret resolution is skipped.  [loadProvider] yields no
    provider exactly when the [provider] option is not an instance and
    either no client is given or the key looked up (the provider type when
    one is given, else the client's constructor name) is not one of the
    eight known keys; it logs something exactly when it yields no provider
    although a client is given.  A provider type without a client is thus
    ignored without a warning. *)
Theorem secrets_are_skipped_exactly_when :
  forall options : SecretsLoaderService.SecretsLoaderOptions,
    let selected (c : SecretsLoaderService.Client) :=
      match SecretsLoaderService.provider options with
      | Some (SecretsLoaderService.ProviderType key) => key
      | _ => SecretsLoaderService.constructor_name c
      end in
    (value_of (SecretsLoaderService.loadProvider options) = Ok None <->
     (forall p, SecretsLoaderService.provider options
                <> Some (SecretsLoaderService.ProviderInstance p)) /\
     (SecretsLoaderService.client options = None \/
      exists c, SecretsLoaderService.client options = Some c /\
                ~ In (selected c) knownProviderKeys)) /\
    (written (SecretsLoaderService.loadProvider options) <> [] <->
     value_of (SecretsLoaderService.loadProvider options) = Ok None /\
     SecretsLoaderService.client options <> None).
Proof.
  intros options selected. subst selected.
  unfold SecretsLoaderService.loadProvider.
  destruct (SecretsLoaderService.provider options) as [[key|p]|];
    destruct (SecretsLoaderService.client options) as [c|]; simpl.
  - destruct (knownProviderKeys_dec key) as [Hin|Hout].
    + destruct (createSecretProvider_known c Hin) as [p ->]. simpl.
      split; split.
      * discriminate.
      * intros [_ [H|[c' [[= <-] H]]]]; [discriminate | contradiction].
      * intros H. now contradiction H.
      * intros [H _]. discriminate.
    + rewrite (createSecretProvider_unknown c Hout). simpl.
      split; split.
      * intros _. split; [discriminate|]. right. now exists c.
      * reflexivity.
      * intros _. split; [reflexivity | discriminate].
      * intros _. discriminate.
  - split; split.
    + intros _. split; [discriminate | now left].
    + reflexivity.
    + intros H. now contradiction H.
    + intros [_ H]. now contradiction H.
  - split; split.
    + discriminate.
    + intros [H _]. now contradiction (H p).
    + intros H. now contradiction H.
    + intros [H _]. discriminate.
  - split; split.
    + discriminate.
    + intros [H _]. now contradiction (H p).
    + intros H. now contradiction H.
    + intros [H _]. discriminate.
  - destruct (knownProviderKeys_dec (SecretsLoaderService.constructor_name c))
      as [Hin|Hout].
    + destruct (createSecretProvider_known c Hin) as [p ->]. simpl.
      split; split.
      * discriminate.
      * intros [_ [H|[c' [[= <-] H]]]]; [discriminate | contradiction].
      * intros H. now contradiction H.
      * intros [H _]. discriminate.
    + rewrite (createSecretProvider_unknown c Hout). simpl.
      split; split.
      * intros _. split; [discriminate|]. right. now exists c.
      * reflexivity.
      * intros _. split; [reflexivity | discriminate].
      * intros _. discriminate.
  - split; split.
    + intros _. split; [discriminate | now left].
    + reflexivity.
    + intros H. now contradiction H.
    + intros [_ H]. now contradiction H.
Qed.

(** ** The log of secret resolution *)

Lemma string_append_assoc (a b c : string) :
  ((a ++ b) ++ c)%string = (a ++ (b ++ c))%string.
Proof. induction a as [|x a IH]; simpl; [reflexivity | now rewrite IH]. Qed.

Lemma fullPathOf_nonempty (path key : string) :
  path <> "" ->
  SecretsLoaderService.fullPathOf path key = (path ++ "." ++ key)%string.
Proof. destruct path; [congruence | reflexivity]. Qed.

Lemma dotted_fold (path : list string) :
  forall prefix,
    prefix <> "" ->
    fold_left SecretsLoaderService.fullPathOf path prefix
    = dotted (prefix :: path).
Proof.
  induction path as [|key path IH]; intros prefix Hne; [reflexivity|].
  simpl. rewrite (fullPathOf_nonempty _ Hne), IH.
  - unfold dotted. destruct path as [|q path]; simpl.
    + reflexivity.
    + now rewrite !string_append_assoc.
  - destruct prefix; [congruence | discriminate].
Qed.

Lemma written_resolveSecrets_get (secretProvider : SecretsProvider)
  (config : Props) (path key : string) (x : JsValue) (entry : LogEntry) :
  Obj.get key config = Some x ->
  In entry (written (SecretsLoaderService.resolveProperty secretProvider x
                       (SecretsLoaderService.fullPathOf path key))) ->
  In entry (written (SecretsLoaderService.resolveSecrets secretProvider
                       config path)).
Proof.
  induction config as [|[k y] config IH]; simpl; [discriminate|].
  intros Hget Hin.
  rewrite (written_bind _ _ (resolveProperty_value _ _ _)).
  rewrite (written_bind _ _ (resolveSecrets_value _ _ _)).
  destruct (String.eqb_spec k key) as [->|Hne].
  - injection Hget as ->. apply in_or_app. now left.
  - apply in_or_app. right. apply in_or_app. left. now apply IH.
Qed.

Lemma written_resolveProperty_object (secretProvider : SecretsProvider)
  (config : Props) (fullPath : string) (entry : LogEntry) :
  In entry (written (SecretsLoaderService.resolveSecrets secretProvider
                       config fullPath)) ->
  In entry (written (SecretsLoaderService.resolveProperty secretProvider
                       (JObj config) fullPath)).
Proof.
  intros H. rewrite resolveProperty_object.
  rewrite (written_bind _ _ (resolveSecrets_value _ _ _)).
  apply in_or_app. now left.
Qed.

(** What the loop writes for a reference, given how the provider settles *)
Lemma written_resolveProperty_leaf (secretProvider : SecretsProvider)
  (path : list string) :
  forall (v : JsValue) (fullPath ref : string),
    lookup_path path v = Some (JStr ref) ->
    isSecretReference secretProvider ref = true ->
    In match value_of (resolveSecret secretProvider ref) with
       | Ok _ =>
           (LDebug,
            ("Loaded secret from provider ["
             ++ fold_left SecretsLoaderService.fullPathOf path fullPath
             ++ "]")%string)
       | Throw message =>
           (LError,
            ("Failed to load secret ["
             ++ fold_left SecretsLoaderService.fullPathOf path fullPath
             ++ "]: " ++ message)%string)
       end
       (written (SecretsLoaderService.resolveProperty secretProvider v
                   fullPath)).
Proof.
  induction path as [|key path IH]; intros v fullPath ref Hv Href.
  - simpl in Hv. injection Hv as ->. simpl. rewrite Href.
    destruct (resolveSecret secretProvider ref) as [[r|e] l]; simpl;
      apply in_or_app; right; now left.
  - simpl in Hv. destruct v as [| | | | |ps|]; try discriminate.
    destruct (Obj.get key ps) as [x|] eqn:E; try discriminate.
    apply written_resolveProperty_object.
    apply (@written_resolveSecrets_get secretProvider ps fullPath key x _ E).
    simpl. now apply IH.
Qed.

(** X9: every reference the loop meets leaves one entry naming its dotted
    key.  For a reference at a path whose first key is not empty, the log
    of [resolveSecrets] holds the error [Failed to load secret [a.b.c]: m]
    when the provider throws [m] on it, and the debug entry
    [Loaded secret from provider [a.b.c]] when the provider resolves it. *)
Theorem resolution_is_logged_with_dotted_path :
  forall (secretProvider : SecretsProvider) (config : Props)
         (key : string) (rest : list string) (ref : string),
    key <> "" ->
    lookup_path (key :: rest) (JObj config) = Some (JStr ref) ->
    isSecretReference secretProvider ref = true ->
    let entries :=
      written (SecretsLoaderService.resolveSecrets secretProvider config "") in
    (forall message,
        value_of (resolveSecret secretProvider ref) = Throw message ->
        In (LError, ("Failed to load secret [" ++ dotted (key :: rest)
                     ++ "]: " ++ message)%string) entries) /\
    (forall resolved,
        value_of (resolveSecret secretProvider ref) = Ok resolved ->
        In (LDebug, ("Loaded secret from provider [" ++ dotted (key :: rest)
                     ++ "]")%string) entries).
Proof.
  intros sp config key rest ref Hkey Hlookup Href entries. subst entries.
  simpl in Hlookup.
  destruct (Obj.get key config) as [x|] eqn:E; try discriminate.
  pose proof (written_resolveProperty_leaf sp rest x
                (SecretsLoaderService.fullPathOf "" key) Hlookup Href) as H.
  apply (@written_resolveSecrets_get sp config "" key x _ E) in H.
  change (SecretsLoaderService.fullPathOf "" key) with key in H.
  rewrite (dotted_fold rest Hkey) in H.
  split.
  - intros message Hm. now rewrite Hm in H.
  - intros resolved Hr. now rewrite Hr in H.
Qed.

Lemma resolution_is_logged_with_dotted_path_witness :
  In (LError, "Failed to load secret [a.b]: backend unavailable")
     (written (SecretsLoaderService.resolveSecrets Sample.flakyProvider
                 Sample.settings "")) /\
  In (LDebug, "Loaded secret from provider [a.c]")
     (written (SecretsLoaderService.resolveSecrets Sample.flakyProvider
                 Sample.settings "")).
Proof.
  split.
  - refine (proj1 (@resolution_is_logged_with_dotted_path
                     Sample.flakyProvider Sample.settings "a" ["b"] "ref-b"
                     _ eq_refl eq_refl) "backend unavailable" eq_refl).
    discriminate.
  - refine (proj2 (@resolution_is_logged_with_dotted_path
                     Sample.flakyProvider Sample.settings "a" ["c"] "ref-c"
                     _ eq_refl eq_refl) (SString "resolved-c") eq_refl).
    discriminate.
Defined.

(** ** Resolving twice *)

Lemma resolveSecrets_settled (firstPass secondPass : SecretsProvider)
  (config : Props) :
  Forall (fun kv =>
            forall fullPath,
              SecretsLoaderService.resolveProperty secondPass
                (resolvedValue firstPass (snd kv)) fullPath
              = (Ok (resolvedValue firstPass (snd kv)), [])) config ->
  forall path,
    SecretsLoaderService.resolveSecrets secondPass
      (resolvedProps firstPass config) path
    = (Ok (resolvedProps firstPass config), []).
Proof.
  induction config as [|[k x] config IH]; intros Hall path; [reflexivity|].
  inversion Hall as [|? ? Hx Hrest]; subst. simpl in Hx.
  simpl. rewrite Hx, (IH Hrest). reflexivity.
Qed.

(** A tree in which the first pass resolved every reference, to values
    that are no references, is passed through by a second pass. *)
Lemma resolveProperty_settled (firstPass secondPass : SecretsProvider)
  (v : JsValue) :
  (forall s, isSecretReference secondPass s = isSecretReference firstPass s) ->
  well_formed v = true ->
  (forall path ref,
      lookup_path path v = Some (JStr ref) ->
      isSecretReference firstPass ref = true ->
      exists r,
        value_of (resolveSecret firstPass ref) = Ok r /\
        match r with
        | SString s => isSecretReference firstPass s = false
        | SArray _ => True
        end) ->
  forall fullPath,
    SecretsLoaderService.resolveProperty secondPass
      (resolvedValue firstPass v) fullPath
    = (Ok (resolvedValue firstPass v), []).
Proof.
  intros Hsame.
  induction v as [| | |s|xs _|ps IH|o s _ _] using JsValue_nested_ind;
    intros Hwf Hrefs fullPath; try reflexivity.
  - simpl. destruct (isSecretReference firstPass s) eqn:Href.
    + destruct (Hrefs [] s eq_refl Href) as [r [Hr Hfinal]].
      rewrite Hr. destruct r as [s'|values]; simpl; [|reflexivity].
      now rewrite Hsame, Hfinal.
    + simpl. now rewrite Hsame, Href.
  - rewrite resolvedValue_object, resolveProperty_object.
    rewrite resolveSecrets_settled; [reflexivity|].
    apply well_formed_object in Hwf as [Hd Hall].
    rewrite Forall_forall in *. intros [k x] Hin fullPath'. simpl.
    apply (IH _ Hin); [apply (Hall _ Hin)|].
    intros path ref Hlookup. apply (Hrefs (k :: path)). simpl.
    now rewrite (get_In_distinct _ _ _ Hd Hin).
Qed.

(** X10: resolution is idempotent.  When the first pass has resolved every
    reference of the tree, and no string it put there is itself a
    reference, a second pass over the resolved tree by a provider that
    recognises the same references returns the tree as it is and logs
    nothing, whatever its backend would answer: resolved values stay and
    arrays of values are not scanned. *)
Theorem resolution_is_idempotent :
  forall (firstPass secondPass : SecretsProvider) (config resolved : Props),
    (forall s,
        isSecretReference secondPass s = isSecretReference firstPass s) ->
    well_formed_props config = true ->
    (forall path ref,
        lookup_path path (JObj config) = Some (JStr ref) ->
        isSecretReference firstPass ref = true ->
        exists r,
          value_of (resolveSecret firstPass ref) = Ok r /\
          match r with
          | SString s => isSecretReference firstPass s = false
          | SArray _ => True
          end) ->
    value_of (SecretsLoaderService.resolveSecrets firstPass config "")
    = Ok resolved ->
    SecretsLoaderService.resolveSecrets secondPass resolved ""
    = (Ok resolved, []).
Proof.
  intros firstPass secondPass config resolved Hsame Hwf Hrefs Hres.
  rewrite resolveSecrets_value in Hres. injection Hres as <-.
  pose proof (resolveProperty_settled firstPass secondPass (JObj config)
                Hsame Hwf Hrefs "") as H.
  rewrite resolvedValue_object, resolveProperty_object in H.
  destruct (SecretsLoaderService.resolveSecrets secondPass
              (resolvedProps firstPass config) "") as [[r|e] l];
    simpl in H; [|discriminate].
  injection H as Hr Hl. rewrite app_nil_r in Hl. congruence.
Qed.

Lemma resolution_is_idempotent_witness :
  SecretsLoaderService.resolveSecrets
    (AwsParameterStore.provider Sample2.unreachableSsm)
    [("db", JObj [("password", JStr "s3cr3t")])] ""
  = (Ok [("db", JObj [("password", JStr "s3cr3t")])], []).
Proof.
  apply (@resolution_is_idempotent
           (AwsParameterStore.provider
              (SecretsLoaderService.asSSMClient Sample2.ssmClient))
           (AwsParameterStore.provider Sample2.unreachableSsm)
           Sample2.dbSettings).
  - intros s. reflexivity.
  - reflexivity.
  - intros path ref Hlookup _.
    destruct path as [|k1 path]; [discriminate|].
    unfold Sample2.dbSettings in Hlookup.
    cbn [lookup_path Obj.get] in Hlookup.
    destruct ("db" =? k1); [|discriminate].
    destruct path as [|k2 path]; [discriminate|].
    cbn [lookup_path Obj.get] in Hlookup.
    destruct ("password" =? k2); [|discriminate].
    destruct path as [|k3 path]; [|discriminate].
    injection Hlookup as <-.
    exists (SString "s3cr3t"). split; reflexivity.
  - reflexivity.
Defined.

(** ** The application root *)

Lemma prefix_substring (p : string) :
  forall n s,
    String.prefix p (String.substring 0 n s) = true -> String.prefix p s = true.
Proof.
  induction p as [|a p IH]; intros n s H; [now destruct s|].
  destruct n as [|n]; destruct s as [|c s]; simpl in *; try discriminate.
  destruct (ascii_dec a c); [|discriminate]. now apply (IH n).
Qed.

Lemma indexOf_substring (needle : string) (s : string) :
  needle <> "" ->
  forall n,
    JsString.indexOf s needle = Some n ->
    JsString.indexOf (JsString.substring0 n s) needle = None.
Proof.
  intros Hne. unfold JsString.substring0.
  assert (Hempty : JsString.indexOf "" needle = None).
  { destruct needle; [congruence | reflexivity]. }
  induction s as [|c s IH]; intros n H.
  - rewrite Hempty in H. discriminate.
  - cbn [JsString.indexOf] in H.
    destruct (String.prefix needle (String c s)) eqn:Ep.
    + injection H as <-. exact Hempty.
    + destruct (JsString.indexOf s needle) as [m|] eqn:Ei; [|discriminate].
      injection H as <-. simpl String.substring.
      cbn [JsString.indexOf].
      destruct (String.prefix needle (String c (String.substring 0 m s)))
        eqn:Ep'.
      * apply (prefix_substring needle (S m) (String c s)) in Ep'.
        congruence.
      * now rewrite (IH m eq_refl).
Qed.

(** X11: the application root never contains [node_modules]: whatever the
    module's directory and whatever [node:path] answers, the directory
    [findAppRootDirectory] returns has no occurrence of it. *)
Theorem app_root_is_outside_node_modules :
  forall rt : SecretsLoaderService.Runtime,
    JsString.indexOf (SecretsLoaderService.findAppRootDirectory rt)
      "node_modules" = None.
Proof.
  intros rt. unfold SecretsLoaderService.findAppRootDirectory. cbv zeta.
  match goal with
  | |- JsString.indexOf
         match JsString.indexOf ?d "node_modules" with _ => _ end _ = _ =>
      destruct (JsString.indexOf d "node_modules") as [n|] eqn:E
  end.
  - apply indexOf_substring; [discriminate | exact E].
  - exact E.
Qed.

Example app_root_of_an_installed_package :
  SecretsLoaderService.findAppRootDirectory Sample2.runtimeWithBrokenFile
  = "/srv/app/".
Proof. reflexivity. Qed.

(** ** Inverting a match *)

Lemma plus_greedy_inv {A} (cs : Regex.CharSet) (s : string) :
  forall (k : string -> option A) (r : A),
    Regex.plus_greedy cs s k = Some r ->
    exists taken rest,
      s = (taken ++ rest)%string /\ taken <> "" /\
      JsString.all (Regex.set_has cs) taken = true /\ k rest = Some r.
Proof.
  induction s as [|c s IH]; intros k r H; simpl in H; [discriminate|].
  destruct (Regex.set_has cs c) eqn:Ec; [|discriminate].
  destruct (Regex.plus_greedy cs s k) as [r'|] eqn:Eg.
  - injection H as ->.
    destruct (IH k r Eg) as [taken [rest [-> [Hne [Hall Hk]]]]].
    exists (String c taken), rest. repeat split; try discriminate; auto.
    simpl. now rewrite Ec.
  - exists (String c ""), s. repeat split; try discriminate; auto.
    simpl. now rewrite Ec.
Qed.

Lemma repeat_exactly_inv {A} (n : nat) (cs : Regex.CharSet) :
  forall (s : string) (k : string -> option A) (r : A),
    Regex.repeat_exactly n cs s k = Some r ->
    exists taken rest,
      s = (taken ++ rest)%string /\ String.length taken = n /\
      JsString.all (Regex.set_has cs) taken = true /\ k rest = Some r.
Proof.
  induction n as [|n IH]; intros s k r H; simpl in H.
  - exists "", s. repeat split; auto.
  - destruct s as [|c s]; [discriminate|].
    destruct (Regex.set_has cs c) eqn:Ec; [|discriminate].
    destruct (IH s k r H) as [taken [rest [-> [Hlen [Hall Hk]]]]].
    exists (String c taken), rest. repeat split; auto.
    + simpl. now rewrite Hlen.
    + simpl. now rewrite Ec.
Qed.

Lemma run_lit_inv (l s : string) (caps m : Regex.Captures)
  (k : string -> Regex.Captures -> option Regex.Captures) :
  Regex.run (Regex.RLit l) s caps k = Some m ->
  exists rest, s = (l ++ rest)%string /\ k rest caps = Some m.
Proof.
  simpl. destruct (JsString.stripPrefix l s) as [rest|] eqn:E;
    [|discriminate].
  intros H. exists rest. split; [now apply stripPrefix_Some | exact H].
Qed.

Lemma run_plus_inv (cs : Regex.CharSet) (s : string) (caps m : Regex.Captures)
  (k : string -> Regex.Captures -> option Regex.Captures) :
  Regex.run (Regex.RPlus cs) s caps k = Some m ->
  exists taken rest,
    s = (taken ++ rest)%string /\ taken <> "" /\
    JsString.all (Regex.set_has cs) taken = true /\ k rest caps = Some m.
Proof. simpl. apply plus_greedy_inv. Qed.

Lemma run_repeat_inv (n : nat) (cs : Regex.CharSet) (s : string)
  (caps m : Regex.Captures)
  (k : string -> Regex.Captures -> option Regex.Captures) :
  Regex.run (Regex.RRepeat n cs) s caps k = Some m ->
  exists taken rest,
    s = (taken ++ rest)%string /\ String.length taken = n /\
    JsString.all (Regex.set_has cs) taken = true /\ k rest caps = Some m.
Proof. simpl. apply repeat_exactly_inv. Qed.

Lemma isEmpty_true (s : string) : JsString.isEmpty s = true -> s = "".
Proof. destruct s; [reflexivity | discriminate]. Qed.

Lemma final_inv (rest : string) (caps m : Regex.Captures) :
  (if JsString.isEmpty rest then Some caps else None) = Some m -> rest = "".
Proof. destruct rest; [reflexivity | discriminate]. Qed.

Ltac invert_lit H :=
  rewrite ?run_seq in H;
  let rest := fresh "rest" in
  apply run_lit_inv in H as [rest [-> H]]; cbv beta in H.

Ltac invert_plus H taken Hne Hall :=
  rewrite ?run_seq in H;
  let rest := fresh "rest" in
  apply run_plus_inv in H as [taken [rest [-> [Hne [Hall H]]]]];
  cbv beta in H.

(** ** The reference grammars *)

(** X12: the Google pattern accepts exactly the strings
    [projects/<p>/secrets/<s>/versions/<v>] whose three segments are not
    empty and hold no slash. *)
Theorem google_reference_grammar :
  forall value : string,
    GoogleSecretManager.isSecretReference value = true <->
    exists project secret version,
      project <> "" /\ secret <> "" /\ version <> "" /\
      JsString.all (Regex.set_has GoogleSecretManager.notSlash) project = true /\
      JsString.all (Regex.set_has GoogleSecretManager.notSlash) secret = true /\
      JsString.all (Regex.set_has GoogleSecretManager.notSlash) version = true /\
      value = ("projects/" ++ project ++ "/secrets/" ++ secret
               ++ "/versions/" ++ version)%string.
Proof.
  intros value. split.
  - intros H. apply test_true_exec in H as [m H].
    unfold Regex.exec, GoogleSecretManager.secretPathPattern in H.
    invert_lit H. invert_plus H project Hp Hpc.
    invert_lit H. invert_plus H secret Hs Hsc.
    invert_lit H. invert_plus H version Hv Hvc.
    apply final_inv in H. subst.
    exists project, secret, version.
    rewrite string_append_empty. repeat split; assumption.
  - intros [project [secret [version [Hp [Hs [Hv [Hpc [Hsc [Hvc ->]]]]]]]]].
    unfold GoogleSecretManager.isSecretReference, Regex.test, Regex.exec,
      GoogleSecretManager.secretPathPattern.
    rewrite run_seq, run_lit, run_seq.
    rewrite (@run_plus_run GoogleSecretManager.notSlash project _ _ []);
      auto.
    rewrite run_seq, run_lit, run_seq.
    apply run_plus_run; auto.
    rewrite run_seq, run_lit.
    rewrite <- (string_append_empty version).
    apply run_plus_run; auto.
Qed.

Lemma run_opt (r : Regex.Regex) (s : string) (caps : Regex.Captures)
  (k : string -> Regex.Captures -> option Regex.Captures) :
  Regex.run (Regex.ROpt r) s caps k
  = match Regex.run r s caps k with
    | Some m => Some m
    | None => k s (caps ++ repeat None (Regex.groups r))
    end.
Proof. reflexivity. Qed.

Lemma run_alt (r1 r2 : Regex.Regex) (s : string) (caps : Regex.Captures)
  (k : string -> Regex.Captures -> option Regex.Captures) :
  Regex.run (Regex.RAlt r1 r2) s caps k
  = match Regex.run r1 s caps
            (fun rest caps' =>
               k rest (caps' ++ repeat None (Regex.groups r2))) with
    | Some m => Some m
    | None => Regex.run r2 s (caps ++ repeat None (Regex.groups r1)) k
    end.
Proof. reflexivity. Qed.

(** X13: the Azure pattern accepts exactly the strings
    [https://<vault>.vault.azure.net/secrets/<name>] and
    [https://<vault>.vault.azure.net/secrets/<name>/<version>] whose vault
    is a non-empty run of word characters and hyphens and whose name and
    version are non-empty and hold neither a slash nor white space. *)
Theorem azure_reference_grammar :
  forall value : string,
    AzureKeyVault.isSecretReference value = true <->
    exists (vault name : string) (version : option string),
      vault <> "" /\
      JsString.all (Regex.set_has AzureKeyVault.vaultChars) vault = true /\
      name <> "" /\
      JsString.all (Regex.set_has AzureKeyVault.segmentChars) name = true /\
      match version with
      | Some v =>
          v <> "" /\
          JsString.all (Regex.set_has AzureKeyVault.segmentChars) v = true /\
          value = ("https://" ++ vault ++ ".vault.azure.net/secrets/" ++ name
                   ++ "/" ++ v)%string
      | None =>
          value = ("https://" ++ vault ++ ".vault.azure.net/secrets/"
                   ++ name)%string
      end.
Proof.
  intros value. split.
  - intros H. apply test_true_exec in H as [m H].
    unfold Regex.exec, AzureKeyVault.secretUrlPattern in H.
    invert_lit H. invert_plus H vault Hv Hvc.
    invert_lit H. rewrite run_seq, run_group in H.
    apply run_plus_inv in H as [name [rest1 [-> [Hn [Hnc H]]]]].
    cbv beta in H. rewrite run_opt in H.
    match type of H with
    | match ?a with _ => _ end = _ => destruct a as [m'|] eqn:E
    end.
    + clear H. invert_lit E. rewrite run_group in E.
      apply run_plus_inv in E as [version [rest2 [-> [Hver [Hverc E]]]]].
      cbv beta in E. apply final_inv in E. subst.
      exists vault, name, (Some version).
      rewrite string_append_empty. repeat split; assumption.
    + apply final_inv in H. subst.
      exists vault, name, None.
      rewrite string_append_empty. repeat split; assumption.
  - intros [vault [name [[version|] [Hv [Hvc [Hn [Hnc H]]]]]]].
    + destruct H as [Hver [Hverc ->]].
      unfold AzureKeyVault.isSecretReference, Regex.test.
      now rewrite (azure_exec_versioned Hv Hvc Hn Hnc Hver Hverc).
    + subst. unfold AzureKeyVault.isSecretReference, Regex.test.
      now rewrite (azure_exec_unversioned Hv Hvc Hn Hnc).
Qed.

(** X14: the Secrets Manager pattern accepts exactly the strings
    [arn:aws:secretsmanager:<region>:<account>:secret:<name>] whose region
    is a non-empty run of lower-case letters, digits and hyphens, whose
    account is a non-empty run of digits and whose name is not empty and
    holds no line terminator. *)
Theorem secrets_manager_reference_grammar :
  forall value : string,
    AwsSecretsManager.isSecretReference value = true <->
    exists region account name,
      region <> "" /\ account <> "" /\ name <> "" /\
      JsString.all
        (Regex.set_has
           (Regex.OneOf [Regex.Range "a" "z"; Regex.Range "0" "9";
                         Regex.Chr "-"])) region = true /\
      JsString.all
        (Regex.set_has (Regex.OneOf [Regex.Range "0" "9"])) account = true /\
      JsString.all (Regex.set_has Regex.AnyChar) name = true /\
      value = ("arn:aws:secretsmanager:" ++ region ++ ":" ++ account
               ++ ":secret:" ++ name)%string.
Proof.
  intros value. split.
  - intros H. apply test_true_exec in H as [m H].
    unfold Regex.exec, AwsSecretsManager.arnPattern in H.
    invert_lit H. invert_plus H region Hr Hrc.
    invert_lit H. invert_plus H account Ha Hac.
    invert_lit H. invert_plus H name Hn Hnc.
    apply final_inv in H. subst.
    exists region, account, name.
    rewrite string_append_empty. repeat split; assumption.
  - intros [region [account [name [Hr [Ha [Hn [Hrc [Hac [Hnc ->]]]]]]]]].
    unfold AwsSecretsManager.isSecretReference, Regex.test, Regex.exec,
      AwsSecretsManager.arnPattern.
    rewrite run_seq, run_lit, run_seq.
    rewrite (@run_plus_run _ region _ _ []); auto.
    rewrite run_seq, run_lit, run_seq.
    apply run_plus_run; auto.
    rewrite run_seq, run_lit.
    rewrite <- (string_append_empty name).
    apply run_plus_run; auto.
Qed.

Lemma run_repeat_run (n : nat) (cs : Regex.CharSet) (taken : string) :
  forall (rest : string) (caps m : Regex.Captures)
         (k : string -> Regex.Captures -> option Regex.Captures),
    String.length taken = n ->
    JsString.all (Regex.set_has cs) taken = true ->
    k rest caps = Some m ->
    Regex.run (Regex.RRepeat n cs) (taken ++ rest) caps k = Some m.
Proof.
  simpl. revert taken.
  induction n as [|n IH]; intros taken rest caps m k Hlen Hall Hk.
  - destruct taken; [exact Hk | discriminate].
  - destruct taken as [|c taken]; [discriminate|].
    simpl in Hall. apply andb_true_iff in Hall as [Hc Hall].
    simpl. rewrite Hc. apply IH; auto.
Qed.

Lemma parameter_store_reference_shape :
  forall value : string,
    AwsParameterStore.isSecretReference value = true ->
    exists path,
      path <> "" /\
      JsString.all (Regex.set_has AwsParameterStore.pathChars) path = true /\
      (value = ("/" ++ path)%string \/
       exists awsPartition region account,
         awsPartition <> "" /\ region <> "" /\ String.length account = 12 /\
         JsString.all
           (Regex.set_has (Regex.OneOf [Regex.Range "a" "z"; Regex.Chr "-"]))
           awsPartition = true /\
         JsString.all
           (Regex.set_has
              (Regex.OneOf [Regex.Range "a" "z"; Regex.Range "0" "9";
                            Regex.Chr "-"])) region = true /\
         JsString.all (Regex.set_has (Regex.OneOf [Regex.DigitChar]))
           account = true /\
         value = ("arn:" ++ awsPartition ++ ":ssm:" ++ region ++ ":" ++ account
                  ++ ":parameter/" ++ path)%string).
Proof.
  intros value H. apply test_true_exec in H as [m H].
  unfold Regex.exec, AwsParameterStore.parameterPathPattern in H.
  rewrite run_alt in H.
  match type of H with
  | match ?a with _ => _ end = _ => destruct a as [m'|] eqn:E
  end.
  - clear H. invert_lit E. invert_plus E path Hp Hpc.
    apply final_inv in E. subst.
    exists path. rewrite string_append_empty. auto.
  - clear E. invert_lit H. invert_plus H awsPartition Hpa Hpac.
    invert_lit H. invert_plus H region Hr Hrc.
    invert_lit H. rewrite run_seq in H.
    apply run_repeat_inv in H as [account [afterAccount [-> [Hlen [Hac H]]]]].
    cbv beta in H.
    invert_lit H. invert_plus H path Hp Hpc.
    apply final_inv in H. subst.
    exists path. rewrite string_append_empty.
    split; [assumption|]. split; [assumption|]. right.
    exists awsPartition, region, account. repeat split; assumption.
Qed.

(** X15: the Parameter Store pattern accepts exactly the strings [/<path>]
    and [arn:<partition>:ssm:<region>:<account>:parameter/<path>] whose
    path is a non-empty run of letters, digits, [_], [.], [/] and [-],
    whose partition is a non-empty run of lower-case letters and hyphens,
    whose region is a non-empty run of lower-case letters, digits and
    hyphens and whose account is twelve digits. *)
Theorem parameter_store_reference_grammar :
  forall value : string,
    AwsParameterStore.isSecretReference value = true <->
    exists path,
      path <> "" /\
      JsString.all (Regex.set_has AwsParameterStore.pathChars) path = true /\
      (value = ("/" ++ path)%string \/
       exists awsPartition region account,
         awsPartition <> "" /\ region <> "" /\ String.length account = 12 /\
         JsString.all
           (Regex.set_has (Regex.OneOf [Regex.Range "a" "z"; Regex.Chr "-"]))
           awsPartition = true /\
         JsString.all
           (Regex.set_has
              (Regex.OneOf [Regex.Range "a" "z"; Regex.Range "0" "9";
                            Regex.Chr "-"])) region = true /\
         JsString.all (Regex.set_has (Regex.OneOf [Regex.DigitChar]))
           account = true /\
         value = ("arn:" ++ awsPartition ++ ":ssm:" ++ region ++ ":" ++ account
                  ++ ":parameter/" ++ path)%string).
Proof.
  intros value. split.
  - apply parameter_store_reference_shape.
  - intros [path [Hp [Hpc H]]].
    unfold AwsParameterStore.isSecretReference, Regex.test, Regex.exec,
      AwsParameterStore.parameterPathPattern.
    rewrite run_alt.
    destruct H as [->|[awsPartition [region [account
                      [Hpa [Hr [Hlen [Hpac [Hrc [Hac ->]]]]]]]]]].
    + rewrite run_seq, run_lit.
      rewrite <- (string_append_empty path).
      rewrite (@run_plus_run _ path "" _ []); auto.
    + match goal with
      | |- match match ?a with _ => _ end with _ => _ end = _ =>
          destruct a; [reflexivity|]
      end.
      rewrite run_seq, run_lit, run_seq.
      rewrite (@run_plus_run _ awsPartition _ _ []); auto.
      rewrite run_seq, run_lit, run_seq.
      apply run_plus_run; auto.
      rewrite run_seq, run_lit, run_seq.
      apply run_repeat_run; auto.
      rewrite run_seq, run_lit.
      rewrite <- (string_append_empty path).
      apply run_plus_run; auto.
Qed.

(** ** Path-prefix references and the loader *)

Lemma lastChar_append (a b : string) :
  b <> "" -> lastChar (a ++ b) = lastChar b.
Proof.
  intros Hb. induction a as [|c a IH]; [reflexivity|].
  simpl. rewrite IH.
  destruct (a ++ b)%string eqn:E; [|reflexivity].
  destruct a; simpl in E; [congruence | discriminate].
Qed.

Lemma lastChar_all (p : ascii -> bool) (s : string) (c : ascii) :
  JsString.all p s = true -> lastChar s = Some c -> p c = true.
Proof.
  induction s as [|x s IH]; [discriminate|].
  simpl. intros Hall Hlast. apply andb_true_iff in Hall as [Hx Hall].
  destruct s as [|y s]; [congruence | auto].
Qed.

Lemma endsWith_lastChar (s suffix : string) :
  suffix <> "" -> JsString.endsWith s suffix = true ->
  lastChar s = lastChar suffix.
Proof.
  intros Hne.
  assert (Hempty : JsString.endsWith "" suffix = false).
  { destruct suffix; [congruence | reflexivity]. }
  induction s as [|c s IH]; cbn [JsString.endsWith].
  - cbn [JsString.endsWith] in Hempty. congruence.
  - intros H. apply orb_true_iff in H as [H|H].
    + apply String.eqb_eq in H. now rewrite <- H.
    + rewrite <- (IH H). destruct s as [|y s]; [congruence | reflexivity].
Qed.

Lemma path_prefix_is_no_reference (value : string) :
  JsString.endsWith value "/*" = true ->
  AwsParameterStore.isSecretReference value = false.
Proof.
  intros Hends.
  destruct (AwsParameterStore.isSecretReference value) eqn:E;
    [exfalso|reflexivity].
  apply endsWith_lastChar in Hends; [|discriminate].
  apply parameter_store_reference_shape in E
    as [path [Hp [Hpc Hshape]]].
  assert (Hlast : lastChar value = lastChar path).
  { destruct Hshape as [->|[a [r [n [_ [_ [_ [_ [_ [_ ->]]]]]]]]]].
    - now apply lastChar_append.
    - rewrite (lastChar_append "arn:"),
        (lastChar_append a), (lastChar_append ":ssm:"),
        (lastChar_append r), (lastChar_append ":"),
        (lastChar_append n), (lastChar_append ":parameter/");
        try assumption; try reflexivity;
        try (destruct path; [congruence | discriminate]);
        try (intros F; apply (f_equal String.length) in F;
             rewrite ?string_length_append in F; simpl in F;
             destruct path; [congruence | simpl in F; lia]).
      all: try (intros F; apply (f_equal String.length) in F;
                simpl in F; rewrite ?string_length_append in F;
                simpl in F; rewrite ?string_length_append in F;
                simpl in F; lia). }
  rewrite Hends in Hlast. simpl in Hlast. symmetry in Hlast.
  pose proof (lastChar_all _ _ Hpc Hlast) as F. discriminate F.
Qed.

(** X16: no string ending in [/*] is a Parameter Store reference, so the
    loader never performs the provider's path-prefix lookup: with the
    Parameter Store provider, whatever its client, a string leaf ending in
    [/*] is still there after resolution. *)
Theorem path_prefix_references_are_never_recognised :
  forall value : string,
    JsString.endsWith value "/*" = true ->
    AwsParameterStore.isSecretReference value = false /\
    (forall (client : AwsParameterStore.SSMClient) (config : Props)
            (path : list string),
        lookup_path path (JObj config) = Some (JStr value) ->
        exists resolved,
          value_of (SecretsLoaderService.resolveSecrets
                      (AwsParameterStore.provider client) config "")
          = Ok resolved /\
          lookup_path path (JObj resolved) = Some (JStr value)).
Proof.
  intros value Hends.
  pose proof (path_prefix_is_no_reference value Hends) as Hno.
  split; [exact Hno|].
  intros client config path Hlookup.
  exists (resolvedProps (AwsParameterStore.provider client) config).
  split; [apply resolveSecrets_value|].
  rewrite <- resolvedValue_object.
  rewrite (lookup_path_resolved _ _ _ Hlookup).
  simpl. now rewrite Hno.
Qed.

Lemma path_prefix_references_are_never_recognised_witness :
  AwsParameterStore.isSecretReference "/my-app/dev/*" = false.
Proof.
  exact (proj1 (@path_prefix_references_are_never_recognised
                  "/my-app/dev/*" eq_refl)).
Defined.

(** ** What the providers return *)

(** X17: a backend error surfaces unchanged.  When the one backend call a
    provider makes is rejected, [resolveSecret] is rejected with the same
    message; the Parameter Store, Secrets Manager and Google providers
    write nothing to the log on the way. *)
Theorem backend_errors_surface_unchanged :
  forall (message secretRef : string),
    (forall client : AwsParameterStore.SSMClient,
        (JsString.endsWith secretRef "/*" = true ->
         AwsParameterStore.send client
           (AwsParameterStore.GetParametersByPathCommand
              {| AwsParameterStore.Path := JsString.dropLast 2 secretRef;
                 AwsParameterStore.PathWithDecryption := true;
                 AwsParameterStore.Recursive := true |}) = Throw message ->
         AwsParameterStore.resolveSecret client secretRef
         = (Throw message, [])) /\
        (JsString.endsWith secretRef "/*" = false ->
         AwsParameterStore.send client
           (AwsParameterStore.GetParameterCommand
              {| AwsParameterStore.ParameterName := secretRef;
                 AwsParameterStore.WithDecryption := true |}) = Throw message ->
         AwsParameterStore.resolveSecret client secretRef
         = (Throw message, []))) /\
    (forall client : AwsSecretsManager.SecretsManager,
        AwsSecretsManager.getSecretValue client secretRef = Throw message ->
        AwsSecretsManager.resolveSecret client secretRef
        = (Throw message, [])) /\
    (forall client : GoogleSecretManager.SecretManagerServiceClient,
        GoogleSecretManager.accessSecretVersion client secretRef
        = Throw message ->
        GoogleSecretManager.resolveSecret client secretRef
        = (Throw message, [])) /\
    (forall (client : AzureKeyVault.SecretClient) (m : Regex.Captures)
            (secretName : string),
        Regex.exec AzureKeyVault.secretUrlPattern secretRef = Some m ->
        Regex.group 1 m = Some secretName ->
        AzureKeyVault.getSecret client secretName None = Throw message ->
        value_of (AzureKeyVault.resolveSecret client secretRef)
        = Throw message).
Proof.
  intros message secretRef. split; [|split; [|split]].
  - intros client. split; intros Hends Hsend.
    + unfold AwsParameterStore.resolveSecret,
        AwsParameterStore.retrieveParametersByPath.
      now rewrite Hends, Hsend.
    + unfold AwsParameterStore.resolveSecret,
        AwsParameterStore.retrieveSingleParameter.
      now rewrite Hends, Hsend.
  - intros client H. unfold AwsSecretsManager.resolveSecret. now rewrite H.
  - intros client H. unfold GoogleSecretManager.resolveSecret. now rewrite H.
  - intros client m secretName Hexec Hgroup H.
    rewrite (azure_resolveSecret_value client _ Hexec Hgroup). now rewrite H.
Qed.

Lemma backend_errors_surface_unchanged_witness :
  AwsParameterStore.resolveSecret Sample2.unreachableSsm "/app/db/password"
  = (Throw "connect ETIMEDOUT", []).
Proof.
  exact (proj2 (proj1 (@backend_errors_surface_unchanged "connect ETIMEDOUT"
                         "/app/db/password") Sample2.unreachableSsm)
               eq_refl eq_refl).
Defined.

Lemma filterBoolean_nonempty (values : list string) :
  Forall (fun v => v <> "") (AwsParameterStore.filterBoolean values).
Proof.
  unfold AwsParameterStore.filterBoolean. apply Forall_forall.
  intros v Hv. apply filter_In in Hv as [_ Hv].
  destruct v; [discriminate | discriminate].
Qed.

(** X18: the Parameter Store and Key Vault providers never resolve a
    reference to an empty string: a single value they return is not empty
    and no element of an array they return is empty. *)
Theorem resolved_values_are_never_empty :
  forall (secretRef : string) (resolved : SecretValue),
    ((exists client : AwsParameterStore.SSMClient,
         value_of (AwsParameterStore.resolveSecret client secretRef)
         = Ok resolved) \/
     (exists client : AzureKeyVault.SecretClient,
         value_of (AzureKeyVault.resolveSecret client secretRef)
         = Ok resolved)) ->
    match resolved with
    | SString v => v <> ""
    | SArray values => Forall (fun v => v <> "") values
    end.
Proof.
  intros secretRef resolved [[client H]|[client H]].
  - unfold AwsParameterStore.resolveSecret in H.
    destruct (JsString.endsWith secretRef "/*").
    + apply value_of_bind_Ok in H as [values [Hv Hr]].
      injection Hr as <-.
      unfold AwsParameterStore.retrieveParametersByPath in Hv.
      apply value_of_bind_Ok in Hv as [response [_ Hv]].
      destruct (AwsParameterStore.Parameters_ response) as [[|p ps]|];
        try discriminate.
      apply value_of_bind_Ok in Hv as [vs [_ Hv]].
      injection Hv as <-. apply filterBoolean_nonempty.
    + apply value_of_bind_Ok in H as [v [Hv Hr]].
      injection Hr as <-.
      unfold AwsParameterStore.retrieveSingleParameter in Hv.
      apply value_of_bind_Ok in Hv as [response [_ Hv]].
      destruct (AwsParameterStore.Parameter_ response) as [parameter|];
        try discriminate.
      destruct (AwsParameterStore.Value parameter) as [[|c v']|];
        try discriminate.
      injection Hv as <-. discriminate.
  - unfold AzureKeyVault.resolveSecret in H.
    apply value_of_bind_Ok in H as [secretName [_ H]].
    apply value_of_bind_Ok in H as [response [_ H]].
    destruct response as [[[[|c v]|]]|]; try discriminate.
    injection H as <-. discriminate.
Qed.

Lemma resolved_values_are_never_empty_witness :
  Forall (fun v => v <> "") ["db.example.com"; "api-key-value"].
Proof.
  apply (@resolved_values_are_never_empty "/my-app/dev/*"
           (SArray ["db.example.com"; "api-key-value"])).
  left. exists Sample.ssmWithEmptyValue. reflexivity.
Defined.

Lemma written_mapM_parameterValue
  (params : list AwsParameterStore.SsmParameter) :
  written (AwsParameterStore.mapM AwsParameterStore.parameterValue params)
  = map (fun param =>
           (LWarn, ("Parameter " ++ interpolate (AwsParameterStore.Name param)
                    ++ " has no value")%string))
        (filter (fun param => falsy (AwsParameterStore.Value param)) params).
Proof.
  induction params as [|param params IH]; [reflexivity|].
  simpl.
  pose proof (mapM_parameterValue params) as Hv.
  destruct (AwsParameterStore.mapM AwsParameterStore.parameterValue params)
    as [[values|e] l]; simpl in Hv, IH; [|discriminate].
  unfold AwsParameterStore.parameterValue.
  destruct (falsy (AwsParameterStore.Value param)); simpl;
    rewrite ?app_nil_r; now rewrite IH.
Qed.

Lemma filterBoolean_valueless (params : list AwsParameterStore.SsmParameter) :
  forallb (fun param => falsy (AwsParameterStore.Value param)) params = true ->
  AwsParameterStore.filterBoolean
    (map (fun param =>
            match AwsParameterStore.Value param with
            | Some v => v
            | None => ""
            end) params) = [].
Proof.
  induction params as [|q qs IH]; [reflexivity|].
  simpl. intros Hall. apply andb_true_iff in Hall as [Hq Hall].
  destruct (AwsParameterStore.Value q) as [[|c v]|];
    try discriminate; simpl; now apply IH.
Qed.

(** X19: a path lookup writes one warning for each returned parameter
    whose value is missing or empty, naming the parameter, in the backend's
    order, and nothing else; when none of the returned parameters has a
    value it returns the empty array rather than raising. *)
Theorem valueless_parameters_are_reported :
  forall (client : AwsParameterStore.SSMClient) (pathRef : string)
         (response : AwsParameterStore.CommandOutput)
         (params : list AwsParameterStore.SsmParameter),
    JsString.endsWith pathRef "/*" = true ->
    AwsParameterStore.send client
      (AwsParameterStore.GetParametersByPathCommand
         {| AwsParameterStore.Path := JsString.dropLast 2 pathRef;
            AwsParameterStore.PathWithDecryption := true;
            AwsParameterStore.Recursive := true |}) = Ok response ->
    AwsParameterStore.Parameters_ response = Some params ->
    params <> [] ->
    written (AwsParameterStore.resolveSecret client pathRef)
    = map (fun param =>
             (LWarn, ("Parameter " ++ interpolate (AwsParameterStore.Name param)
                      ++ " has no value")%string))
          (filter (fun param => falsy (AwsParameterStore.Value param)) params)
    /\
    (forallb (fun param => falsy (AwsParameterStore.Value param)) params = true ->
     value_of (AwsParameterStore.resolveSecret client pathRef)
     = Ok (SArray [])).
Proof.
  intros client pathRef response params Hends Hsend Hparams Hne.
  unfold AwsParameterStore.resolveSecret,
    AwsParameterStore.retrieveParametersByPath.
  rewrite Hends, Hsend. cbv beta iota delta [bind await]. rewrite Hparams.
  destruct params as [|p ps]; [congruence|].
  pose proof (mapM_parameterValue (p :: ps)) as Hv.
  pose proof (written_mapM_parameterValue (p :: ps)) as Hw.
  destruct (AwsParameterStore.mapM AwsParameterStore.parameterValue (p :: ps))
    as [[values|e] l]; cbn [value_of written fst snd] in Hv, Hw;
    [|discriminate].
  injection Hv as ->. subst l. split.
  - simpl. now rewrite !app_nil_r.
  - intros Hall. cbv beta iota delta [bind ret value_of fst].
    exact (f_equal (fun values => Ok (SArray values))
             (filterBoolean_valueless (p :: ps) Hall)).
Qed.

Lemma valueless_parameters_are_reported_witness :
  written (AwsParameterStore.resolveSecret Sample2.ssmWithoutValues "/app/*")
  = [(LWarn, "Parameter /app/a has no value");
     (LWarn, "Parameter undefined has no value")] /\
  value_of (AwsParameterStore.resolveSecret Sample2.ssmWithoutValues "/app/*")
  = Ok (SArray []).
Proof.
  destruct (@valueless_parameters_are_reported Sample2.ssmWithoutValues
              "/app/*" _ _ eq_refl eq_refl eq_refl) as [Hw Hv].
  - discriminate.
  - split; [exact Hw | exact (Hv eq_refl)].
Defined.

(** ** Parsing a Key Vault reference *)

(** X20: [resolveSecret] rejects a string that is not a Key Vault reference
    with the invalid-reference error, whatever the client (the backend is
    not asked); on a reference, [parseSecretReference] returns the name
    segment, with or without a version segment after it, and logs the whole
    reference, not the vault name, as the vault. *)
Theorem key_vault_reference_parsing :
  forall secretRef : string,
    (AzureKeyVault.isSecretReference secretRef = false ->
     forall client : AzureKeyVault.SecretClient,
       AzureKeyVault.resolveSecret client secretRef
       = (Throw ("Invalid Azure Key Vault secret reference: " ++ secretRef
                 ++ ". Expected format: https://<vault-name>.vault.azure.net/secrets/<secret-name>[/<version>]")%string,
          [])) /\
    (forall (vault name : string) (version : option string),
        vault <> "" ->
        JsString.all (Regex.set_has AzureKeyVault.vaultChars) vault = true ->
        name <> "" ->
        JsString.all (Regex.set_has AzureKeyVault.segmentChars) name = true ->
        match version with
        | Some v =>
            v <> "" /\
            JsString.all (Regex.set_has AzureKeyVault.segmentChars) v = true /\
            secretRef = ("https://" ++ vault ++ ".vault.azure.net/secrets/"
                         ++ name ++ "/" ++ v)%string
        | None =>
            secretRef = ("https://" ++ vault ++ ".vault.azure.net/secrets/"
                         ++ name)%string
        end ->
        AzureKeyVault.parseSecretReference secretRef
        = (Ok name,
           [(LDebug, ("Parsed secret reference from vault: " ++ secretRef
                      ++ ", secret: " ++ name)%string)])).
Proof.
  intros secretRef. split.
  - intros Hno client.
    unfold AzureKeyVault.resolveSecret, AzureKeyVault.parseSecretReference.
    unfold AzureKeyVault.isSecretReference, Regex.test in Hno.
    destruct (Regex.exec AzureKeyVault.secretUrlPattern secretRef);
      [discriminate | reflexivity].
  - intros vault name version Hv Hvc Hn Hnc Hshape.
    unfold AzureKeyVault.parseSecretReference.
    destruct version as [v|].
    + destruct Hshape as [Hver [Hverc ->]].
      now rewrite (azure_exec_versioned Hv Hvc Hn Hnc Hver Hverc).
    + subst. now rewrite (azure_exec_unversioned Hv Hvc Hn Hnc).
Qed.

Lemma key_vault_reference_parsing_witness :
  AzureKeyVault.parseSecretReference
    "https://my-vault.vault.azure.net/secrets/my-secret"
  = (Ok "my-secret",
     [(LDebug, "Parsed secret reference from vault: https://my-vault.vault.azure.net/secrets/my-secret, secret: my-secret")]).
Proof.
  apply (proj2 (key_vault_reference_parsing
                  "https://my-vault.vault.azure.net/secrets/my-secret")
               "my-vault" "my-secret" None);
    try discriminate; reflexivity.
Defined.

(** ** From the client to the resolved tree *)

Lemma resolvedValue_reference (secretProvider : SecretsProvider)
  (ref : string) (resolved : SecretValue) :
  isSecretReference secretProvider ref = true ->
  value_of (resolveSecret secretProvider ref) = Ok resolved ->
  resolvedValue secretProvider (JStr ref)
  = SecretsLoaderService.secretToJs resolved.
Proof. intros Href Hres. simpl. now rewrite Href, Hres. Qed.

(** X21: auto-detection, loader and provider together.  With no [provider]
    option and a client whose constructor is named [SSMClient], a Parameter
    Store reference found anywhere in the merged files is replaced by the
    value of the parameter of that name, fetched by one decrypting
    single-name lookup. *)
Theorem ssm_client_resolves_parameter_references :
  forall (rt : SecretsLoaderService.Runtime)
         (options : SecretsLoaderService.SecretsLoaderOptions)
         (c : SecretsLoaderService.Client) (merged : Props)
         (path : list string) (ref : string)
         (response : AwsParameterStore.CommandOutput)
         (parameter : AwsParameterStore.SsmParameter) (v : string),
    SecretsLoaderService.provider options = None ->
    SecretsLoaderService.client options = Some c ->
    SecretsLoaderService.constructor_name c = "SSMClient" ->
    value_of (SecretsLoaderService.loadConfigFiles rt None options)
    = Ok merged ->
    lookup_path path (JObj merged) = Some (JStr ref) ->
    AwsParameterStore.isSecretReference ref = true ->
    AwsParameterStore.send (SecretsLoaderService.asSSMClient c)
      (AwsParameterStore.GetParameterCommand
         {| AwsParameterStore.ParameterName := ref;
            AwsParameterStore.WithDecryption := true |}) = Ok response ->
    AwsParameterStore.Parameter_ response = Some parameter ->
    AwsParameterStore.Value parameter = Some v ->
    v <> "" ->
    exists config,
      value_of (SecretsLoaderService.load rt options)
      = Ok {| SecretsLoaderService.internalConfig := config |} /\
      lookup_path path (JObj config) = Some (JStr v).
Proof.
  intros rt options c merged path ref response parameter v
    Hp Hc Hname Hmerged Hlookup Href Hsend Hparam Hvalue Hv.
  set (sp := AwsParameterStore.provider (SecretsLoaderService.asSSMClient c)).
  assert (Hprov : value_of (SecretsLoaderService.loadProvider options)
                  = Ok (Some sp)).
  { unfold SecretsLoaderService.loadProvider. rewrite Hp, Hc.
    unfold SecretsLoaderService.createSecretProvider. rewrite Hname.
    reflexivity. }
  assert (Hends : JsString.endsWith ref "/*" = false).
  { destruct (JsString.endsWith ref "/*") eqn:E; [|reflexivity].
    pose proof (path_prefix_is_no_reference ref E) as F.
    congruence. }
  assert (Hres : value_of (resolveSecret sp ref) = Ok (SString v)).
  { subst sp. simpl.
    unfold AwsParameterStore.resolveSecret,
      AwsParameterStore.retrieveSingleParameter.
    rewrite Hends, Hsend. cbv beta iota delta [bind await].
    rewrite Hparam, Hvalue. destruct v; [congruence | reflexivity]. }
  exists (resolvedProps sp merged). split.
  - apply (load_value _ _ Hprov), loadConfigFiles_resolves, Hmerged.
  - rewrite <- resolvedValue_object, (lookup_path_resolved sp _ _ Hlookup).
    now rewrite (@resolvedValue_reference sp ref (SString v) Href Hres).
Qed.

Lemma ssm_client_resolves_parameter_references_witness :
  exists config,
    value_of (SecretsLoaderService.load Sample2.dbRuntime Sample2.ssmOptions)
    = Ok {| SecretsLoaderService.internalConfig := config |} /\
    lookup_path ["db"; "password"] (JObj config) = Some (JStr "s3cr3t").
Proof.
  apply (@ssm_client_resolves_parameter_references
           Sample2.dbRuntime Sample2.ssmOptions Sample2.ssmClient
           Sample2.dbSettings ["db"; "password"] "/app/db/password"
           {| AwsParameterStore.Parameters_ := None;
              AwsParameterStore.Parameter_ :=
                Some {| AwsParameterStore.Name := Some "/app/db/password";
                        AwsParameterStore.Value := Some "s3cr3t" |} |}
           {| AwsParameterStore.Name := Some "/app/db/password";
              AwsParameterStore.Value := Some "s3cr3t" |} "s3cr3t");
    try reflexivity. discriminate.
Defined.

(** ** The two versions of the Google provider *)

(** X22: the Google provider of src/src/providers fulfils exactly when the
    other version does, with the same value and an empty log; when it
    rejects, it has logged the error once, as
    [Failed to get Google secret: m], and rejects with that same [m]. *)
Theorem logging_google_provider_agrees :
  forall (client : GoogleSecretManager.SecretManagerServiceClient)
         (secretRef : string),
    (forall resolved,
        GoogleSecretManagerLogging.resolveSecret client secretRef
        = (Ok resolved, []) <->
        value_of (GoogleSecretManager.resolveSecret client secretRef)
        = Ok resolved) /\
    (forall message,
        value_of (GoogleSecretManagerLogging.resolveSecret client secretRef)
        = Throw message ->
        written (GoogleSecretManagerLogging.resolveSecret client secretRef)
        = [(LError, ("Failed to get Google secret: " ++ message)%string)] /\
        exists message',
          value_of (GoogleSecretManager.resolveSecret client secretRef)
          = Throw message') /\
    (forall message,
        GoogleSecretManager.accessSecretVersion client secretRef
        = Throw message ->
        GoogleSecretManagerLogging.resolveSecret client secretRef
        = (Throw message,
           [(LError, ("Failed to get Google secret: " ++ message)%string)])).
Proof.
  intros client secretRef.
  unfold GoogleSecretManagerLogging.resolveSecret,
    GoogleSecretManager.resolveSecret.
  destruct (GoogleSecretManager.accessSecretVersion client secretRef)
    as [[[[[[[[|c s]|utf8]|]]|]]|]|e]; simpl;
    (split; [|split]);
    try (intros resolved; split; intros H; try discriminate;
         inversion H; subst; reflexivity);
    try (intros message H; try discriminate; inversion H; subst;
         split; [reflexivity | eexists; reflexivity]);
    try (intros message H; try discriminate; inversion H; subst;
         reflexivity).
Qed.

(** ** The log of the loop over the files *)

Lemma written_loadFiles_cons (rt : SecretsLoaderService.Runtime)
  (fileType : SecretsLoaderService.FileType) (baseDirectory : string)
  (mergedConfig : Props) (filename : string) (files : list string) :
  exists merged,
    written (SecretsLoaderService.loadFiles rt fileType baseDirectory
               mergedConfig (filename :: files))
    = written (SecretsLoaderService.loadFile rt fileType baseDirectory
                 mergedConfig filename)
      ++ written (SecretsLoaderService.loadFiles rt fileType baseDirectory
                    merged files).
Proof.
  destruct (loadFile_total rt fileType baseDirectory mergedConfig filename)
    as [m Hm].
  exists m. simpl.
  exact (written_bind _
           (fun mergedConfig' =>
              SecretsLoaderService.loadFiles rt fileType baseDirectory
                mergedConfig' files) Hm).
Qed.

(** X23: every listed file leaves its trace.  For each name in [files] the
    log of the loop holds [Loading config from <path>] when the file
    exists and [Config file not found: <path>] when it does not, [<path>]
    being the name joined to the base directory. *)
Theorem every_file_is_logged :
  forall (rt : SecretsLoaderService.Runtime)
         (fileType : SecretsLoaderService.FileType) (baseDirectory : string)
         (files : list string) (mergedConfig : Props) (filename : string),
    In filename files ->
    let filePath := SecretsLoaderService.join rt baseDirectory filename in
    In (LDebug,
        if SecretsLoaderService.existsSync rt filePath
        then ("Loading config from " ++ filePath)%string
        else ("Config file not found: " ++ filePath)%string)
       (written (SecretsLoaderService.loadFiles rt fileType baseDirectory
                   mergedConfig files)).
Proof.
  intros rt fileType baseDirectory files.
  induction files as [|f files IH]; intros mergedConfig filename Hin filePath;
    [destruct Hin|].
  destruct (written_loadFiles_cons rt fileType baseDirectory mergedConfig
              f files) as [m ->].
  apply in_or_app. destruct Hin as [->|Hin].
  - left. subst filePath. unfold SecretsLoaderService.loadFile.
    destruct (SecretsLoaderService.existsSync rt
                (SecretsLoaderService.join rt baseDirectory filename)).
    + destruct (SecretsLoaderService.readFileSync rt
                  (SecretsLoaderService.join rt baseDirectory filename))
        as [content|e]; simpl; [|now left].
      destruct (SecretsLoaderService.parseContent rt
                  (SecretsLoaderService.parsedAs fileType filename) content);
        simpl; now left.
    + simpl. now left.
  - right. now apply IH.
Qed.

Lemma every_file_is_logged_witness :
  In (LDebug, "Config file not found: /etc/app/missing.yaml")
     (written (SecretsLoaderService.loadFiles Sample.runtime
                 SecretsLoaderService.yaml "/etc/app" []
                 ["settings.yaml"; "missing.yaml"])).
Proof.
  exact (@every_file_is_logged Sample.runtime SecretsLoaderService.yaml
           "/etc/app" ["settings.yaml"; "missing.yaml"] [] "missing.yaml"
           (or_intror (or_introl eq_refl))).
Defined.
